(** * magpylib: the cube source and collections of sources

    A shallow embedding of [magnet/_cube.py] (class [Cube]) and of
    [magpylib/_lib/classes/collection.py] (class [Collection]).

    Scalars are numpy [float64] values, modelled by Rocq's primitive
    binary64 floats. Two fields are equal when their components are the
    same floats: the same number with the same sign of zero, or both a
    NaN. Objects live in a store and are named by references, so that a
    Collection can hold one magnet twice. *)

From Stdlib Require Import ZArith List String Bool Lia.
From Stdlib Require Import Floats.
From stdpp Require Import base option list gmap.
Import ListNotations.

Local Open Scope float_scope.

(** ** float64 scalars *)

Module F64.

(** [isnan] of numpy. *)
Definition isnan (x : float) : bool := PrimFloat.is_nan x.

(** Python's [x == y] on floats: the IEEE comparison, for which
    [-0.0 == 0.0] and a NaN is equal to nothing. *)
Definition py_eq (x y : float) : bool := PrimFloat.eqb x y.

(** Python's [x != y] on floats. *)
Definition py_ne (x y : float) : bool := negb (PrimFloat.eqb x y).

(** [float(n)] for a Python int of magnitude below [2^63]. *)
Definition of_int (n : Z) : float :=
  if (0 <=? n)%Z then of_uint63 (Uint63.of_Z n)
  else - of_uint63 (Uint63.of_Z (- n)).

End F64.

(** ** numpy arrays of three float64 *)

Record vec3 : Type := V3 { vx : float; vy : float; vz : float }.

Definition vzero : vec3 := V3 0 0 0.

(** A scalar broadcast to the shape of an array. *)
Definition vfull (k : float) : vec3 := V3 k k k.

(** [u + v], [u - v] and [-v] on arrays: component by component. *)
Definition vadd (u v : vec3) : vec3 :=
  V3 (vx u + vx v) (vy u + vy v) (vz u + vz v).

Definition vsub (u v : vec3) : vec3 :=
  V3 (vx u - vx v) (vy u - vy v) (vz u - vz v).

Definition vneg (v : vec3) : vec3 := V3 (- vx v) (- vy v) (- vz v).

(** [k * v] for a scalar [k]. *)
Definition vscale (k : float) (v : vec3) : vec3 :=
  V3 (k * vx v) (k * vy v) (k * vz v).

(** An array of any length is a [vec3] when it has three entries. *)
Definition as_vec3 (a : list float) : option vec3 :=
  match a with
  | [x; y; z] => Some (V3 x y z)
  | _ => None
  end.

(** The test the constructors apply to an array argument:
    [any(isnan(a)) or len(a) != 3]. *)
Definition bad_vec3_input (a : list float) : bool :=
  existsb F64.isnan a || negb (Nat.eqb (List.length a) 3).

(** ** Exceptions and results *)

Inductive exn : Type :=
| SystemExit (msg : string)   (* raised by [sys.exit(msg)] *)
| InputDomainError            (* a rotation about the zero axis *)
| NoSuchObject.               (* a reference that names no object; a
                                 Python reference never does *)

Inductive res (A : Type) : Type :=
| Ok (a : A)
| Raise (e : exn).
Arguments Ok {A} a.
Arguments Raise {A} e.

Definition raises {A : Type} (r : res A) : Prop := exists e, r = Raise e.

Definition res_bind {A B : Type} (r : res A) (k : A -> res B) : res B :=
  match r with
  | Ok a => k a
  | Raise e => Raise e
  end.

(** ** The rotation primitive *)

Section Rotation.

(** The Rodrigues formula for a non-zero angle and a non-zero axis: it
    needs sine and cosine, and no claim looks into it. *)
Variable rodrigues : float -> vec3 -> vec3 -> vec3.

(** [axis] is the zero vector: all three components [== 0]. *)
Definition is_zero_vector (a : vec3) : bool :=
  F64.py_eq (vx a) 0 && F64.py_eq (vy a) 0 && F64.py_eq (vz a) 0.

(** Modelled from the spec: [angleAxisRotation] is imported from
    [_mathLibPrivate], which is not among the sources. Spec 4.1: a zero
    angle short-circuits and returns the vector as it is, whatever the
    axis; otherwise a zero axis is an input-domain error; otherwise the
    vector is rotated about the (internally normalized) axis. *)
Definition angleAxisRotation (angle : float) (axis v : vec3) : res vec3 :=
  if F64.py_eq angle 0 then Ok v
  else if is_zero_vector axis then Raise InputDomainError
  else Ok (rodrigues angle axis v).

End Rotation.

(** ** The base class of magnets *)

Record HomoMag : Type := mkHomoMag {
  position : vec3;
  angle : float;
  axis : vec3;
  magnetization : vec3
}.

(** Modelled from the spec: [HomoMag.__init__] is imported from [_base],
    which is not among the sources. Spec 7: malformed input (wrong arity,
    NaN components) fails at construction and the failure names the
    parameter; [Cube.__init__] shows the shape of the test for [dim]. *)
Definition HomoMag_init (pos : list float) (angle : float)
    (axis mag : list float) : res HomoMag :=
  if bad_vec3_input pos then Raise (SystemExit "Bad pos input")
  else if bad_vec3_input axis then Raise (SystemExit "Bad axis input")
  else if bad_vec3_input mag then Raise (SystemExit "Bad mag input")
  else
    match as_vec3 pos, as_vec3 axis, as_vec3 mag with
    | Some p, Some a, Some m => Ok (mkHomoMag p angle a m)
    | _, _, _ => Raise (SystemExit "Bad input")
    end.

(** Modelled from the spec: [move] of the base class, spec 4.2:
    [position += displacement]; it always succeeds. *)
Definition HomoMag_move (self : HomoMag) (displacement : vec3) : HomoMag :=
  mkHomoMag (vadd (position self) displacement) (angle self) (axis self)
            (magnetization self).

(** ** class Cube(HomoMag) *)

Record Cube : Type := mkCube {
  super : HomoMag;
  dimension : list float
}.

Section CubeMethods.

Variable rodrigues : float -> vec3 -> vec3 -> vec3.

(** [Bfield_Cube(mag, pos, dim)], the closed-form field of a cuboid in
    its own frame, imported from [PM_Cube], which is not among the
    sources. *)
Variable Bfield_Cube : vec3 -> vec3 -> list float -> vec3.

(** [Cube.__init__(self, mag, dim, pos=(0,0,0), angle=0, axis=(0,0,1))],
    with [mag] and [dim] given as arrays. *)
Definition Cube_init (mag dim pos : list float) (angle : float)
    (axis : list float) : res Cube :=
  res_bind (HomoMag_init pos angle axis mag) (fun base =>
    let dimension := dim in
    if existsb F64.isnan dimension
       || negb (Nat.eqb (List.length dimension) 3)
    then Raise (SystemExit "Bad dim input for cube")
    else Ok (mkCube base dimension)).

(** [Cube.getB(self, pos)]. *)
Definition Cube_getB (self : Cube) (pos : vec3) : res vec3 :=
  let p1 := pos in
  let posRel := vsub p1 (position (super self)) in
  res_bind (angleAxisRotation rodrigues (angle (super self))
              (vneg (axis (super self))) posRel)
    (fun p21newCm =>
       let BCm := Bfield_Cube (magnetization (super self)) p21newCm
                    (dimension self) in
       res_bind (angleAxisRotation rodrigues (angle (super self))
                   (axis (super self)) BCm)
         (fun B => Ok B)).

(** [move], inherited from the base class. *)
Definition Cube_move (self : Cube) (displacement : vec3) : Cube :=
  mkCube (HomoMag_move (super self) displacement) (dimension self).

End CubeMethods.

(** The defaults of the keyword arguments of [Cube.__init__]. *)
Definition default_pos : list float := [0; 0; 0].
Definition default_angle : float := 0.
Definition default_axis : list float := [0; 0; 1].

(** ** Methods that read and write objects *)

(** A method runs on a state and leaves a state, also when it raises:
    what it wrote before the exception stays written. *)
Definition M (St A : Type) : Type := St -> res A * St.

Definition ret {St A : Type} (a : A) : M St A := fun st => (Ok a, st).

Definition bind {St A B : Type} (m : M St A) (k : A -> M St B) : M St B :=
  fun st =>
    match m st with
    | (Ok a, st') => k a st'
    | (Raise e, st') => (Raise e, st')
    end.

Declare Scope method_scope.
Delimit Scope method_scope with method.
Notation "x <- m ;; k" := (bind m (fun x => k))
  (at level 100, m at next level, right associativity) : method_scope.

(** The list comprehension [[f(s) for s in l]]. *)
Fixpoint comprehension {St A B : Type} (f : A -> M St B) (l : list A)
    : M St (list B) :=
  match l with
  | [] => ret []
  | a :: l' =>
      (b <- f a ;; bs <- comprehension f l' ;; ret (b :: bs))%method
  end.

(** The loop [for s in l: f(s)]. *)
Fixpoint for_each {St A : Type} (f : A -> M St unit) (l : list A)
    : M St unit :=
  match l with
  | [] => ret tt
  | a :: l' => (_ <- f a ;; for_each f l')%method
  end.

(** ** Python's [sum] *)

(** What [sum] can hold here: the int it starts from, or an array. *)
Inductive pyval : Type :=
| PyInt (n : Z)
| NdArray (v : vec3).

(** [a + b]: ints add as ints; an int next to an array is converted to
    float64 and broadcast. *)
Definition py_add (a b : pyval) : pyval :=
  match a, b with
  | PyInt m, PyInt n => PyInt (m + n)
  | PyInt m, NdArray v => NdArray (vadd (vfull (F64.of_int m)) v)
  | NdArray u, PyInt n => NdArray (vadd u (vfull (F64.of_int n)))
  | NdArray u, NdArray v => NdArray (vadd u v)
  end.

(** [sum(l)]: start from the int [0] and add the items from the left. *)
Definition py_sum (l : list pyval) : pyval := fold_left py_add l (PyInt 0).

(** ** class Collection *)

(** Objects are named by references. *)
Definition loc : Type := nat.

Record Collection : Type := mkCollection {
  sources : list loc
}.

(** The [anchor] argument of [rotate]: a string or an array. *)
Inductive anchor_arg : Type :=
| AnchorStr (s : string)
| AnchorVec (v : vec3).

(** A Collection and the objects its references name. *)
Record world (St : Type) : Type := mkWorld {
  self : Collection;
  objs : St
}.
Arguments mkWorld {St} self objs.
Arguments self {St} w.
Arguments objs {St} w.

Section CollectionMethods.

(** The members are any objects with [getB], [move] and [rotate]; the
    Collection sees them through these methods only. *)
Context {St : Type}.
Variable src_getB : loc -> vec3 -> M St vec3.
Variable src_move : loc -> vec3 -> M St unit.
Variable src_rotate : loc -> float -> vec3 -> anchor_arg -> M St unit.

(** Reading [self.sources]. *)
Definition get_sources : M (world St) (list loc) :=
  fun w => (Ok (sources (self w)), w).

(** Assigning [self.sources]. *)
Definition set_sources (l : list loc) : M (world St) unit :=
  fun w => (Ok tt, mkWorld (mkCollection l) (objs w)).

(** A call of a member's method. *)
Definition call {A : Type} (m : M St A) : M (world St) A :=
  fun w => let '(r, st') := m (objs w) in (r, mkWorld (self w) st').

(** [Collection.__init__(self, *sources)]. *)
Definition Collection_init (srcs : list loc) : Collection :=
  fold_left (fun acc s => mkCollection (sources acc ++ [s])) srcs
    (mkCollection []).

(** [Collection.addSource(self, source)]. *)
Definition Collection_addSource (source : loc) : M (world St) unit :=
  (srcs <- get_sources ;; set_sources (srcs ++ [source]))%method.

(** [Collection.getB(self, pos)]. *)
Definition Collection_getB (pos : vec3) : M (world St) pyval :=
  (srcs <- get_sources ;;
   fields <- comprehension (fun s => call (src_getB s pos)) srcs ;;
   let Btotal := py_sum (map NdArray fields) in
   ret Btotal)%method.

(** [Collection.move(self, displacement)]. *)
Definition Collection_move (displacement : vec3) : M (world St) unit :=
  (srcs <- get_sources ;;
   for_each (fun s => call (src_move s displacement)) srcs)%method.

(** [Collection.rotate(self, angle, axis, anchor='self.position')];
    [None] is a call that leaves [anchor] out. *)
Definition Collection_rotate (angle : float) (axis : vec3)
    (anchor : option anchor_arg) : M (world St) unit :=
  let anchor := default (AnchorStr "self.position") anchor in
  (srcs <- get_sources ;;
   for_each (fun s => call (src_rotate s angle axis anchor)) srcs)%method.

End CollectionMethods.

(** ** Collections of cubes *)

(** The objects: cubes, by reference. *)
Abbreviation heap := (gmap loc Cube).

Section CubeMembers.

Variable rodrigues : float -> vec3 -> vec3 -> vec3.
Variable Bfield_Cube : vec3 -> vec3 -> list float -> vec3.

(** [s.getB(pos)] for the cube that [s] names. *)
Definition cube_getB (s : loc) (pos : vec3) : M heap vec3 :=
  fun h =>
    match h !! s with
    | Some c => (Cube_getB rodrigues Bfield_Cube c pos, h)
    | None => (Raise NoSuchObject, h)
    end.

(** [s.move(displacement)] for the cube that [s] names. *)
Definition cube_move (s : loc) (displacement : vec3) : M heap unit :=
  fun h =>
    match h !! s with
    | Some c => (Ok tt, <[s := Cube_move c displacement]> h)
    | None => (Raise NoSuchObject, h)
    end.

End CubeMembers.

(** Members whose [rotate] only records how it was called. *)
Record rotate_call : Type := mkRotateCall {
  call_target : loc;
  call_angle : float;
  call_axis : vec3;
  call_anchor : anchor_arg
}.

Definition recording_rotate (s : loc) (angle : float) (axis : vec3)
    (anchor : anchor_arg) : M (list rotate_call) unit :=
  fun log => (Ok tt, log ++ [mkRotateCall s angle axis anchor]).

(** ** The words of the specification *)

(** The element-wise sum of the members' fields, in insertion order,
    from the zero vector. *)
Definition vsum (fields : list vec3) : vec3 := fold_left vadd fields vzero.

(** A position after [n] moves by [d]. *)
Definition moved_by (n : nat) (d p : vec3) : vec3 :=
  Nat.iter n (fun q => vadd q d) p.

(** A cube after [n] moves by [d]: only the position differs. *)
Definition Cube_moved_by (n : nat) (d : vec3) (c : Cube) : Cube :=
  mkCube (mkHomoMag (moved_by n d (position (super c))) (angle (super c))
            (axis (super c)) (magnetization (super c)))
         (dimension c).

(** How often the reference [s] is in a list of sources. *)
Definition occurrences (s : loc) (srcs : list loc) : nat :=
  count_occ Nat.eq_dec srcs s.

(** The cubes after a Collection with the sources [srcs] has moved by
    [d]: one move for every occurrence of a reference. *)
Definition heap_moved_by (srcs : list loc) (d : vec3) (h : heap) : heap :=
  map_imap (fun s c => Some (Cube_moved_by (occurrences s srcs) d c)) h.

(** [dim] has a side length that is zero or negative. *)
Definition nonpositive_side (dim : list float) : bool :=
  existsb (fun x => PrimFloat.leb x 0) dim.

(** Every reference of the list names a cube. *)
Definition all_allocated (h : heap) (srcs : list loc) : Prop :=
  Forall (fun s => is_Some (h !! s)) srcs.

(** The fields of the cubes that a list of references names, as
    [Cube.getB] returns them; the first exception ends the list. *)
Fixpoint member_fields (rodrigues : float -> vec3 -> vec3 -> vec3)
    (Bfield_Cube : vec3 -> vec3 -> list float -> vec3)
    (h : heap) (pos : vec3) (srcs : list loc) : res (list vec3) :=
  match srcs with
  | [] => Ok []
  | s :: srcs' =>
      match h !! s with
      | Some c =>
          res_bind (Cube_getB rodrigues Bfield_Cube c pos) (fun b =>
          res_bind (member_fields rodrigues Bfield_Cube h pos srcs')
            (fun bs => Ok (b :: bs)))
      | None => Raise NoSuchObject
      end
  end.

(** ** Worked inputs *)

(** A magnet with sides [[1,1,1]] in the default pose. *)
Definition cube_with_mag (m : vec3) : Cube :=
  mkCube (mkHomoMag (V3 0 0 0) 0 (V3 0 0 1) m) [1; 1; 1].

(** The magnet of the class docstring: [Cube(mag=[0,0,1000], dim=[1,1,1])]. *)
Definition unit_cube : Cube := cube_with_mag (V3 0 0 1000).

(** The point of the class docstring, [[1,0,1]]. *)
Definition docstring_point : vec3 := V3 1 0 1.

(** The float64 nearest to one tenth. *)
Definition tenth : float := 0x1.999999999999ap-4.

(** One magnet under the reference [0]. *)
Definition one_cube_heap : heap := {[ 0%nat := unit_cube ]}.

Definition tenth_cube_heap : heap :=
  {[ 0%nat := cube_with_mag (V3 tenth 0 0) ]}.

(** Three magnets that differ in their magnetization only. *)
Definition three_cube_heap : heap :=
  {[ 0%nat := cube_with_mag (V3 1e16 0 0);
     1%nat := cube_with_mag (V3 1 0 0);
     2%nat := cube_with_mag (V3 (-1e16) 0 0) ]}.

(** Stand-ins for the two functions that are not among the sources, to
    run the worked inputs: a rotation that is never reached at angle
    zero, and an evaluator that returns the magnetization shifted by the
    local point. They say nothing about the repository's evaluator. *)
Definition rodrigues_stub (angle : float) (axis v : vec3) : vec3 := v.

Definition Bfield_stub (mag pos : vec3) (dim : list float) : vec3 :=
  vadd mag pos.


(** ** float64 values as numbers *)

(** The value of a finite float64 in units of [2^-1074], the smallest
    positive float64: every finite float64 is a whole number of these.
    An infinity and a NaN have no value. *)
Definition SFunits (x : spec_float) : option Z :=
  match x with
  | S754_zero _ => Some 0%Z
  | S754_finite s m e => Some (cond_Zopp s (Zpos m) * 2 ^ (e + 1074))%Z
  | _ => None
  end.

Definition units (x : float) : option Z := SFunits (Prim2SF x).

(** [numpy.isfinite]: neither an infinity nor a NaN. *)
Definition isfinite (x : float) : bool :=
  match units x with
  | Some _ => true
  | None => false
  end.

(** [r] is [N] times [b] up to the rounding of [N] additions: both are
    finite and [|r - N*b| <= N * 2^-53 * |N*b|], a relative error of at
    most [N * 2^-53]. *)
Definition N_times_up_to_rounding (N : nat) (b r : float) : Prop :=
  exists zb zr,
    units b = Some zb /\ units r = Some zr
    /\ (2 ^ 53 * Z.abs (zr - Z.of_nat N * zb)
        <= Z.of_nat N * Z.abs (Z.of_nat N * zb))%Z.

(** [r] is [N] times [b] up to the absolute tolerance of [T] units:
    both are finite and [|r - N*b| <= T * 2^-1074]. *)
Definition N_times_within (T : Z) (N : nat) (b r : float) : Prop :=
  exists zb zr,
    units b = Some zb /\ units r = Some zr
    /\ (Z.abs (zr - Z.of_nat N * zb) <= T)%Z.

(** A float64 a little above one eleventh of the largest float64, and
    the largest float64. *)
Definition huge : float := 0x1.745d1745d1745p+1020.

Definition max_float64 : float := 0x1.fffffffffffffp+1023.

Definition huge_cube_heap : heap :=
  {[ 0%nat := cube_with_mag (V3 huge 0 0) ]}.

(** What [k] right shifts of [m] leave in a record of [SpecFloat]: the
    quotient, and in the round and sticky bits where the remainder lies
    in its interval. *)
Definition shr_inv (m k : Z) (r : shr_record) : Prop :=
  (0 <= k /\ 0 <= shr_m r
   /\ exists rem,
        m = shr_m r * 2 ^ k + rem /\ 0 <= rem < 2 ^ k
        /\ match shr_r r, shr_s r with
           | false, false => rem = 0
           | false, true => 0 < rem /\ 2 * rem < 2 ^ k
           | true, false => 2 * rem = 2 ^ k
           | true, true => 2 * rem > 2 ^ k
           end)%Z.
(** ** More words for the properties of the code *)

(** Python's [x == y], or both are NaN: the same number, up to the sign
    of a zero. *)
Definition same_number (x y : float) : bool :=
  (F64.isnan x && F64.isnan y) || F64.py_eq x y.

Definition same_numbers (u v : vec3) : Prop :=
  same_number (vx u) (vx v) = true
  /\ same_number (vy u) (vy v) = true
  /\ same_number (vz u) (vz v) = true.

(** What [Cube.__init__] checks of [dim]: three components, none a
    NaN. *)
Definition dimension_ok (c : Cube) : Prop :=
  existsb F64.isnan (dimension c) = false
  /\ List.length (dimension c) = 3%nat.

(** A magnet that was given the zero vector as its axis and a quarter
    turn as its angle. *)
Definition zero_axis_cube : Cube :=
  mkCube (mkHomoMag (V3 0 0 0) 90 (V3 0 0 0) (V3 0 0 1000)) [1; 1; 1].

Definition mixed_cube_heap : heap :=
  {[ 0%nat := unit_cube; 1%nat := zero_axis_cube ]}.

(** Members whose [rotate] records the call, except for the member
    [bad], whose [rotate] raises. *)
Definition failing_rotate (bad : loc) (s : loc) (angle : float)
    (axis : vec3) (anchor : anchor_arg) : M (list rotate_call) unit :=
  fun log =>
    if Nat.eqb s bad then (Raise InputDomainError, log)
    else (Ok tt, log ++ [mkRotateCall s angle axis anchor]).

(** ** [Collection.displaySystem]: what it computes and what it draws *)

(** Modelled from the spec: the classes [Box], [Cylinder], [Sphere],
    [Line], [Circular] and [Dipole] are imported from [magnets],
    [currents] and [moments], which are not among the sources. Spec 3
    and 6 give what [displaySystem] reads of them: a position, an angle
    and an axis, and per class the dimension [(A,B,C)] of a box, [(D,H)]
    of a cylinder, the one number of a sphere and of a current loop, the
    vertices of a line current, the moment of a dipole. An object of any
    other class has [NoShape]. *)
Inductive shape : Type :=
| Box (dimension : vec3)
| Cylinder (dimension : float * float)
| Sphere (dimension : float)
| Line (vertices : list vec3)
| Circular (dimension : float)
| Dipole (moment : vec3)
| NoShape.

Record source : Type := mkSource {
  src_position : vec3;
  src_angle : float;
  src_axis : vec3;
  src_shape : shape
}.

(** What [displaySystem] can raise: the errors of indexing and of
    [amax] on an empty array, and what the rotations raise. *)
Inductive py_exn : Type :=
| IndexError
| ValueError
| Raised (e : exn).

Inductive outcome (A : Type) : Type :=
| Returns (a : A)
| Raises (e : py_exn).
Arguments Returns {A} a.
Arguments Raises {A} e.

Definition and_then {A B : Type} (r : outcome A) (k : A -> outcome B)
    : outcome B :=
  match r with
  | Returns a => k a
  | Raises e => Raises e
  end.

Definition of_res {A : Type} (r : res A) : outcome A :=
  match r with
  | Ok a => Returns a
  | Raise e => Raises (Raised e)
  end.

(** [[f(x) for x in l]] for an [f] that can raise. *)
Fixpoint for_all {A B : Type} (f : A -> outcome B) (l : list A)
    : outcome (list B) :=
  match l with
  | [] => Returns []
  | a :: l' =>
      and_then (f a) (fun b =>
      and_then (for_all f l') (fun bs => Returns (b :: bs)))
  end.

(** [l[i]]. *)
Definition item {A : Type} (l : list A) (i : nat) : outcome A :=
  match l !! i with
  | Some a => Returns a
  | None => Raises IndexError
  end.

(** An RGBA colour. *)
Definition rgba : Type := float * float * float * float.

(** What numpy and matplotlib and the rest of the package provide:
    [cos], [sin], [linspace(start, stop, num)], the colour map
    [plt.cm.hsv], the Rodrigues formula of [angleAxisRotation], and
    [rotatePosition(position, angle, axis)] of [mathLibPublic], which is
    not among the sources. *)
Record library : Type := mkLibrary {
  np_cos : float -> float;
  np_sin : float -> float;
  np_linspace : float -> float -> nat -> list float;
  cm_hsv : float -> rgba;
  lib_rodrigues : float -> vec3 -> vec3 -> vec3;
  rotatePosition : vec3 -> float -> vec3 -> res vec3
}.

(** [numpy.pi]. *)
Definition np_pi : float := 0x1.921fb54442d18p+1.

(** A Python number that is an int or a float: [SYSSIZE]. *)
Inductive pynum : Type :=
| NumInt (n : Z)
| NumFloat (x : float).

(** [m > n] for a float64 [m]. *)
Definition float_gt (m : float) (n : pynum) : bool :=
  match n with
  | NumInt k => PrimFloat.ltb (F64.of_int k) m
  | NumFloat x => PrimFloat.ltb x m
  end.

(** [n == 0], [-n] and [n / 5]. *)
Definition num_is_zero (n : pynum) : bool :=
  match n with
  | NumInt k => Z.eqb k 0
  | NumFloat x => F64.py_eq x 0
  end.

Definition num_neg (n : pynum) : pynum :=
  match n with
  | NumInt k => NumInt (- k)
  | NumFloat x => NumFloat (- x)
  end.

Definition num_div5 (n : pynum) : float :=
  match n with
  | NumInt k => F64.of_int k / 5
  | NumFloat x => x / 5
  end.

(** The calls of matplotlib, recorded in their order. *)
Inductive plot_call : Type :=
| PltFigure                        (* plt.figure(dpi=80, figsize=(8,8)) *)
| FigGca3d                         (* fig.gca(projection='3d') *)
| AddCollection3d (faces : list (list vec3)) (facecolors : rgba)
                                   (* ax.add_collection3d(Poly3DCollection(
                                      faces, facecolors=..., linewidths=0.5,
                                      edgecolors='k', alpha=1)) *)
| AxPlot (xs ys zs : list float)   (* ax.plot(xs, ys, zs, lw=1, color='k') *)
| PltQuiver (P M : vec3) (length : float)
                                   (* plt.quiver(P[0],P[1],P[2],
                                      M[0],M[1],M[2], normalize=True,
                                      length=...) *)
| SetTickFontsize                  (* tick.set_fontsize(12), all ticks *)
| SetLabels                        (* set_xlabel, set_ylabel, set_zlabel *)
| AxSetLimits (lo hi : pynum)      (* ax.set(xlim=(lo,hi), ylim=(lo,hi),
                                      zlim=(lo,hi), aspect=1) *)
| PltTightLayout
| PltShow.

(** [u * v] on arrays, and [a / 2]. *)
Definition vmul (u v : vec3) : vec3 :=
  V3 (vx u * vx v) (vy u * vy v) (vz u * vz v).

Definition half (x : float) : float := x / 2.

Definition vhalf (v : vec3) : vec3 := V3 (half (vx v)) (half (vy v)) (half (vz v)).

(** The components of an array of vectors, and of a grid of vectors, in
    the order of the memory. *)
Definition components (vs : list vec3) : list float :=
  flat_map (fun v => [vx v; vy v; vz v]) vs.

Definition grid_components (rows : list (list vec3)) : list float :=
  flat_map components rows.

(** [numpy.maximum(a, b)], which hands on a NaN. *)
Definition np_maximum (a b : float) : float :=
  if PrimFloat.leb b a || F64.isnan a then a else b.

(** [amax(abs(a))] for the components [a]; [amax] of nothing raises. *)
Definition amax_abs (a : list float) : outcome float :=
  match a with
  | [] => Raises ValueError
  | x :: a' => Returns (fold_left np_maximum (map PrimFloat.abs a')
                          (PrimFloat.abs x))
  end.

(** Python's [max([a, b])]. *)
Definition py_max2 (a b : float) : float :=
  if PrimFloat.ltb a b then b else a.

(** [if maxSize > SYSSIZE: SYSSIZE = maxSize]. *)
Definition grow (maxSize : float) (SYSSIZE : pynum) : pynum :=
  if float_gt maxSize SYSSIZE then NumFloat maxSize else SYSSIZE.

(** [type(s) is Box or type(s) is Cylinder or type(s) is Sphere]. *)
Definition is_magnet (s : source) : bool :=
  match src_shape s with
  | Box _ | Cylinder _ | Sphere _ => true
  | _ => false
  end.

(** The loop that counts the magnets. *)
Definition count_magnets (srcs : list source) : nat :=
  fold_left (fun Nm s => if is_magnet s then S Nm else Nm) srcs 0%nat.

(** The corners of a box in its own frame, from [D = s.dimension/2]. *)
Definition box_v0 (D : vec3) : list vec3 :=
  [ D;
    vmul D (V3 1 1 (-1));
    vmul D (V3 1 (-1) (-1));
    vmul D (V3 1 (-1) 1);
    vmul D (V3 (-1) 1 1);
    vmul D (V3 (-1) 1 (-1));
    vneg D;
    vmul D (V3 (-1) (-1) 1) ].

(** The six faces of a box from its eight corners. *)
Definition box_faces (v : list vec3) : outcome (list (list vec3)) :=
  match v with
  | [v0; v1; v2; v3; v4; v5; v6; v7] =>
      Returns [ [v0; v1; v2; v3];
                [v0; v1; v5; v4];
                [v4; v5; v6; v7];
                [v2; v3; v7; v6];
                [v0; v3; v7; v4];
                [v1; v2; v6; v5] ]
  | _ => Raises IndexError
  end.

Section DisplaySystem.

Variable lib : library.

(** [angleAxisRotation(s.angle, s.axis, d) + P]. *)
Definition place (s : source) (d : vec3) : outcome vec3 :=
  and_then
    (of_res (angleAxisRotation (lib_rodrigues lib) (src_angle s)
               (src_axis s) d))
    (fun r => Returns (vadd r (src_position s))).

(** The branch [type(s) is Box]. *)
Definition draw_box (colors : list rgba) (ii : nat) (s : source)
    (dimension : vec3) (SYSSIZE : pynum)
    : list plot_call * outcome pynum :=
  let D := vhalf dimension in
  let v0 := box_v0 D in
  match and_then (for_all (place s) v0) (fun v =>
        and_then (box_faces v) (fun faces =>
        and_then (item colors ii) (fun color => Returns (v, faces, color))))
  with
  | Raises e => ([], Raises e)
  | Returns (v, faces, color) =>
      ([AddCollection3d faces color],
       and_then (amax_abs (components v)) (fun maxSize =>
       Returns (grow maxSize SYSSIZE)))
  end.

(** [[vT[i], vB[i], vB[i+1], vT[i+1]] for i in range(n)]. *)
Definition cylinder_sides (vT vB : list vec3) (n : nat)
    : outcome (list (list vec3)) :=
  for_all (fun i =>
    and_then (item vT i) (fun a =>
    and_then (item vB i) (fun b =>
    and_then (item vB (S i)) (fun c =>
    and_then (item vT (S i)) (fun d => Returns [a; b; c; d])))))
    (seq 0 n).

(** The branch [type(s) is Cylinder]. *)
Definition draw_cylinder (colors : list rgba) (ii : nat) (s : source)
    (dimension : float * float) (SYSSIZE : pynum)
    : list plot_call * outcome pynum :=
  let R := half (fst dimension) in
  let H := half (snd dimension) in
  let resolution := 20%nat in
  let phis := np_linspace lib 0 (2 * np_pi) resolution in
  let vertB0 :=
    map (fun p => V3 (R * np_cos lib p) (R * np_sin lib p) (- H)) phis in
  let vertT0 :=
    map (fun p => V3 (R * np_cos lib p) (R * np_sin lib p) H) phis in
  match and_then (for_all (place s) vertB0) (fun vB =>
        and_then (for_all (place s) vertT0) (fun vT =>
        and_then (cylinder_sides vT vB (resolution - 1)) (fun sides =>
        let faces := sides ++ [vT; vB] in
        and_then (item colors ii) (fun color =>
        Returns (vB, vT, faces, color)))))
  with
  | Raises e => ([], Raises e)
  | Returns (vB, vT, faces, color) =>
      ([AddCollection3d faces color],
       and_then (amax_abs (components vB)) (fun mB =>
       and_then (amax_abs (components vT)) (fun mT =>
       let maxSize := py_max2 mB mT in
       Returns (grow maxSize SYSSIZE))))
  end.

(** [vs[i,j]]. *)
Definition item2 (vs : list (list vec3)) (i j : nat) : outcome vec3 :=
  and_then (item vs i) (fun row => item row j).

(** The faces of a sphere: for every [j], the patches for every [i]. *)
Definition sphere_faces (vs : list (list vec3)) (n : nat)
    : outcome (list (list vec3)) :=
  and_then
    (for_all (fun j =>
       for_all (fun i =>
         and_then (item2 vs i j) (fun a =>
         and_then (item2 vs (S i) j) (fun b =>
         and_then (item2 vs (S i) (S j)) (fun c =>
         and_then (item2 vs i (S j)) (fun d => Returns [a; b; c; d])))))
         (seq 0 n))
       (seq 0 n))
    (fun per_j => Returns (concat per_j)).

(** The branch [type(s) is Sphere]. *)
Definition draw_sphere (colors : list rgba) (ii : nat) (s : source)
    (dimension : float) (SYSSIZE : pynum)
    : list plot_call * outcome pynum :=
  let R := half dimension in
  let resolution := 12%nat in
  let phis := np_linspace lib 0 (2 * np_pi) resolution in
  let thetas := np_linspace lib 0 np_pi resolution in
  let vs0 :=
    map (fun th =>
           map (fun phi =>
                  V3 (R * np_cos lib phi * np_sin lib th)
                     (R * np_sin lib phi * np_sin lib th)
                     (R * np_cos lib th))
               phis)
        thetas in
  match and_then (for_all (for_all (place s)) vs0) (fun vs =>
        and_then (sphere_faces vs (resolution - 1)) (fun faces =>
        and_then (item colors ii) (fun color => Returns (vs, faces, color))))
  with
  | Raises e => ([], Raises e)
  | Returns (vs, faces, color) =>
      ([AddCollection3d faces color],
       and_then (amax_abs (grid_components vs)) (fun maxSize =>
       Returns (grow maxSize SYSSIZE)))
  end.

(** [ax.plot(vs[:,0], vs[:,1], vs[:,2], lw=1, color='k')] and the update
    of [SYSSIZE], shared by the branches of the two currents; an array
    without rows has no columns. *)
Definition plot_curve (vs : list vec3) (SYSSIZE : pynum)
    : list plot_call * outcome pynum :=
  match vs with
  | [] => ([], Raises IndexError)
  | _ :: _ =>
      ([AxPlot (map vx vs) (map vy vs) (map vz vs)],
       and_then (amax_abs (components vs)) (fun maxSize =>
       Returns (grow maxSize SYSSIZE)))
  end.

(** The branch [type(s) is Line]. *)
Definition draw_line (s : source) (vertices : list vec3) (SYSSIZE : pynum)
    : list plot_call * outcome pynum :=
  let vs0 := vertices in
  match for_all (place s) vs0 with
  | Raises e => ([], Raises e)
  | Returns vs => plot_curve vs SYSSIZE
  end.

(** The branch [type(s) is Circular]. *)
Definition draw_circular (s : source) (dimension : float) (SYSSIZE : pynum)
    : list plot_call * outcome pynum :=
  let R := half dimension in
  let resolution := 20%nat in
  let phis := np_linspace lib 0 (2 * np_pi) resolution in
  let vs0 := map (fun p => V3 (R * np_cos lib p) (R * np_sin lib p) 0) phis in
  match for_all (place s) vs0 with
  | Raises e => ([], Raises e)
  | Returns vs => plot_curve vs SYSSIZE
  end.

(** The branch [type(s) is Dipole]. *)
Definition draw_dipole (s : source) (moment : vec3) (SYSSIZE : pynum)
    : list plot_call * outcome pynum :=
  match and_then
          (of_res (rotatePosition lib (src_position s) (src_angle s)
                     (src_axis s))) (fun P =>
        and_then
          (of_res (rotatePosition lib moment (src_angle s) (src_axis s)))
          (fun M =>
        and_then (amax_abs (components [P])) (fun maxSize =>
        Returns (P, M, maxSize))))
  with
  | Raises e => ([], Raises e)
  | Returns (P, M, maxSize) =>
      let SYSSIZE := grow maxSize SYSSIZE in
      let SYSSIZE := if num_is_zero SYSSIZE then NumInt 1 else SYSSIZE in
      ([PltQuiver P M (num_div5 SYSSIZE)], Returns SYSSIZE)
  end.

(** The body of the loop [for ii,s in enumerate(self.sources)]: the
    calls it made, and the new [SYSSIZE] or what it raised. *)
Definition draw_source (colors : list rgba) (ii : nat) (s : source)
    (SYSSIZE : pynum) : list plot_call * outcome pynum :=
  match src_shape s with
  | Box dimension => draw_box colors ii s dimension SYSSIZE
  | Cylinder dimension => draw_cylinder colors ii s dimension SYSSIZE
  | Sphere dimension => draw_sphere colors ii s dimension SYSSIZE
  | Line vertices => draw_line s vertices SYSSIZE
  | Circular dimension => draw_circular s dimension SYSSIZE
  | Dipole moment => draw_dipole s moment SYSSIZE
  | NoShape => ([], Returns SYSSIZE)
  end.

(** The loop, from the index [ii] on. *)
Fixpoint display_loop (colors : list rgba) (ii : nat) (srcs : list source)
    (SYSSIZE : pynum) : list plot_call * outcome pynum :=
  match srcs with
  | [] => ([], Returns SYSSIZE)
  | s :: srcs' =>
      match draw_source colors ii s SYSSIZE with
      | (calls, Raises e) => (calls, Raises e)
      | (calls, Returns SYSSIZE') =>
          let '(calls', r) := display_loop colors (S ii) srcs' SYSSIZE' in
          (calls ++ calls', r)
      end
  end.

(** [colors = [cm(x) for x in linspace(0,1,Nm+1)]]. *)
Definition display_colors (srcs : list source) : list rgba :=
  let Nm := count_magnets srcs in
  map (cm_hsv lib) (np_linspace lib 0 1 (Nm + 1)).

(** [Collection.displaySystem(self)], for the objects that the
    references of [self.sources] name: the calls of matplotlib it made,
    and whether it returned or raised. *)
Definition Collection_displaySystem (srcs : list source)
    : list plot_call * outcome unit :=
  let colors := display_colors srcs in
  let SYSSIZE := NumInt 0 in
  match display_loop colors 0 srcs SYSSIZE with
  | (calls, Raises e) => ([PltFigure; FigGca3d] ++ calls, Raises e)
  | (calls, Returns SYSSIZE) =>
      ([PltFigure; FigGca3d] ++ calls
       ++ [SetTickFontsize; SetLabels;
           AxSetLimits (num_neg SYSSIZE) SYSSIZE;
           PltTightLayout; PltShow],
       Returns tt)
  end.

End DisplaySystem.

(** A library for running worked inputs: constant functions that say
    nothing about numpy; only that [linspace(start, stop, num)] has
    [num] entries is what numpy does. *)
Definition library_stub : library :=
  mkLibrary (fun _ => 1) (fun _ => 0) (fun start _ num => repeat start num)
            (fun x => (x, x, x, 1)) rodrigues_stub
            (fun v _ _ => Ok v).

Definition unit_box : source :=
  mkSource (V3 0 0 0) 0 (V3 0 0 1) (Box (V3 1 1 1)).

Definition a_line : source :=
  mkSource (V3 0 0 0) 0 (V3 0 0 1) (Line [V3 0 0 0; V3 1 0 0]).

(** The rotation of [s] does not raise: the angle is zero or the axis
    is not. *)
Definition rotation_defined (s : source) : Prop :=
  F64.py_eq (src_angle s) 0 = true \/ is_zero_vector (src_axis s) = false.

(** What the rotation of [s] makes of [d] when it does not raise. *)
Definition rotated (lib : library) (s : source) (d : vec3) : vec3 :=
  if F64.py_eq (src_angle s) 0 then d
  else lib_rodrigues lib (src_angle s) (src_axis s) d.

(** [s] is a box whose rotation does not raise. *)
Definition drawable_box (s : source) : Prop :=
  (exists dimension, src_shape s = Box dimension) /\ rotation_defined s.

(** The call draws a box: six faces of four corners each. *)
Definition draws_a_box (c : plot_call) : Prop :=
  match c with
  | AddCollection3d faces _ =>
      List.length faces = 6%nat
      /\ Forall (fun face => List.length face = 4%nat) faces
  | _ => False
  end.

(** A size that is the int [0], the int [1] or a float above zero: no
    NaN and nothing negative. *)
Definition sane_size (n : pynum) : Prop :=
  match n with
  | NumInt k => k = 0%Z \/ k = 1%Z
  | NumFloat x => PrimFloat.ltb 0 x = true
  end.

(** The calls end with the labels, the limits [(-S, S)] on all three
    axes and the show. *)
Definition ends_with_limits (calls : list plot_call) (S : pynum) : Prop :=
  exists before,
    calls = before ++ [SetTickFontsize; SetLabels;
                       AxSetLimits (num_neg S) S; PltTightLayout; PltShow].


(** The corners of the box [s] in the world, in the order of [v0]. *)
Definition box_corners (lib : library) (s : source) (dimension : vec3)
    : list vec3 :=
  map (fun d => vadd (rotated lib s d) (src_position s))
      (box_v0 (vhalf dimension)).

(** [v] is a corner of the box around [P] with the half sides [h]. *)
Definition box_corner (P h v : vec3) : Prop :=
  (vx v = vx h + vx P \/ vx v = - vx h + vx P)
  /\ (vy v = vy h + vy P \/ vy v = - vy h + vy P)
  /\ (vz v = vz h + vz P \/ vz v = - vz h + vz P).

(** The face has four corners of the box, and on all of them the
    coordinate [coord] has the value [c]. *)
Definition box_side (P h : vec3) (coord : vec3 -> float) (c : float)
    (face : list vec3) : Prop :=
  List.length face = 4%nat
  /\ Forall (fun v => box_corner P h v /\ coord v = c) face.

(** A size as a float64, as the comparisons with floats read it. *)
Definition to_float (n : pynum) : float :=
  match n with
  | NumInt k => F64.of_int k
  | NumFloat x => x
  end.

(** [|x| <= S]: the coordinate [x] is inside the limits [(-S, S)]. *)
Definition within (S : pynum) (x : float) : bool :=
  PrimFloat.leb (PrimFloat.abs x) (to_float S).

(** The coordinates that a call draws: of the corners of the faces, or
    of the points of the curve. *)
Definition call_coordinates (c : plot_call) : list float :=
  match c with
  | AddCollection3d faces _ => grid_components faces
  | AxPlot xs ys zs => xs ++ ys ++ zs
  | _ => []
  end.

Definition no_nan (a : list float) : Prop :=
  Forall (fun x => F64.isnan x = false) a.

Definition not_a_sphere (s : source) : Prop :=
  match src_shape s with
  | Sphere _ => False
  | _ => True
  end.

(** [P] holds of the three components of [v]. *)
Definition on_vec (P : float -> Prop) (v : vec3) : Prop :=
  P (vx v) /\ P (vy v) /\ P (vz v).

(** The calls that draw the source [s]: one collection of polygons for
    a magnet, one curve for a current, one arrow for a dipole, nothing
    for an object of another class. *)
Definition drawn_for (s : source) (calls : list plot_call) : Prop :=
  match src_shape s with
  | Box _ | Cylinder _ | Sphere _ =>
      exists faces color, calls = [AddCollection3d faces color]
  | Line _ | Circular _ => exists xs ys zs, calls = [AxPlot xs ys zs]
  | Dipole _ => exists P M length, calls = [PltQuiver P M length]
  | NoShape => calls = []
  end.

(** The calls after the loop, for the size [S]. *)
Definition closing_calls (S : pynum) : list plot_call :=
  [SetTickFontsize; SetLabels; AxSetLimits (num_neg S) S;
   PltTightLayout; PltShow].

(** ** Facts of binary64 arithmetic *)

Module F64Facts.

Lemma sub_zero_r (x : float) : x - 0 = x.
Proof.
  apply Prim2SF_inj. rewrite sub_spec.
  change (Prim2SF 0) with (S754_zero false).
  destruct (Prim2SF x) as [[|]|[|]| |[|] m e]; reflexivity.
Qed.

Lemma SF64add_comm (x y : spec_float) : SF64add x y = SF64add y x.
Proof.
  destruct x as [[|]|[|]| |sx mx ex], y as [[|]|[|]| |sy my ey];
    try reflexivity.
  unfold SF64add, SFadd. rewrite (Z.min_comm ey ex).
  f_equal. apply Z.add_comm.
Qed.

(** float64 addition is commutative (it is not associative). *)
Lemma add_comm (x y : float) : x + y = y + x.
Proof.
  apply Prim2SF_inj. rewrite !add_spec. apply SF64add_comm.
Qed.


End F64Facts.

(** Two float literals are told apart by their bits. *)
Ltac floats_differ H :=
  apply (f_equal Prim2SF) in H; vm_compute in H; discriminate H.

(** Every reference of a literal list names an object of a literal
    store. *)
Ltac allocated := repeat constructor; eexists; reflexivity.

Lemma vsub_vzero (p : vec3) : vsub p vzero = p.
Proof.
  destruct p as [x y z]. unfold vsub, vzero. simpl.
  now rewrite !F64Facts.sub_zero_r.
Qed.

Lemma vadd_comm (u v : vec3) : vadd u v = vadd v u.
Proof.
  unfold vadd.
  now rewrite (F64Facts.add_comm (vx u)), (F64Facts.add_comm (vy u)),
    (F64Facts.add_comm (vz u)).
Qed.

(** ** Running methods *)

Section Runs.

Context {St : Type}.

Lemma world_eta (w : world St) : mkWorld (self w) (objs w) = w.
Proof. now destruct w. Qed.

(** Calls of members' methods leave [self] alone. *)
Lemma comprehension_call {A B : Type} (f : A -> M St B) (l : list A)
    (w : world St) :
  comprehension (fun s => call (f s)) l w
  = (fst (comprehension f l (objs w)),
     mkWorld (self w) (snd (comprehension f l (objs w)))).
Proof.
  revert w. induction l as [|a l IH]; intros w; simpl.
  - unfold ret. simpl. now rewrite world_eta.
  - unfold bind, call at 1.
    destruct (f a (objs w)) as [[b|e] st']; simpl; [|reflexivity].
    rewrite IH. simpl.
    destruct (comprehension f l st') as [[bs|e] st'']; reflexivity.
Qed.

Lemma for_each_call {A : Type} (f : A -> M St unit) (l : list A)
    (w : world St) :
  for_each (fun s => call (f s)) l w
  = (fst (for_each f l (objs w)),
     mkWorld (self w) (snd (for_each f l (objs w)))).
Proof.
  revert w. induction l as [|a l IH]; intros w; simpl.
  - unfold ret. simpl. now rewrite world_eta.
  - unfold bind, call at 1.
    destruct (f a (objs w)) as [[b|e] st']; simpl; [|reflexivity].
    now rewrite IH.
Qed.

Lemma Collection_getB_run (src_getB : loc -> vec3 -> M St vec3)
    (pos : vec3) (w : world St) :
  Collection_getB src_getB pos w
  = let run := comprehension (fun s => src_getB s pos) (sources (self w))
                 (objs w) in
    (res_bind (fst run) (fun fields => Ok (py_sum (map NdArray fields))),
     mkWorld (self w) (snd run)).
Proof.
  unfold Collection_getB, bind, get_sources. rewrite comprehension_call.
  simpl. destruct (comprehension _ _ _) as [[bs|e] st']; reflexivity.
Qed.

Lemma Collection_move_run (src_move : loc -> vec3 -> M St unit)
    (d : vec3) (w : world St) :
  Collection_move src_move d w
  = let run := for_each (fun s => src_move s d) (sources (self w)) (objs w) in
    (fst run, mkWorld (self w) (snd run)).
Proof.
  unfold Collection_move, bind, get_sources. now rewrite for_each_call.
Qed.

(** [addSource] appends, whether or not the reference is in the list. *)
Lemma Collection_addSource_run (source : loc) (w : world St) :
  Collection_addSource source w
  = (Ok tt, mkWorld (mkCollection (sources (self w) ++ [source])) (objs w)).
Proof. reflexivity. Qed.

End Runs.

(** The constructor keeps its arguments in their order. *)
Lemma Collection_init_sources (srcs : list loc) :
  Collection_init srcs = mkCollection srcs.
Proof.
  unfold Collection_init.
  assert (H : forall acc,
    fold_left (fun acc s => mkCollection (sources acc ++ [s])) srcs
      (mkCollection acc) = mkCollection (acc ++ srcs)).
  { induction srcs as [|s srcs IH]; intros acc; simpl.
    - now rewrite app_nil_r.
    - rewrite IH. now rewrite <- app_assoc. }
  apply (H []).
Qed.

Section CubeRuns.

Variable rodrigues : float -> vec3 -> vec3 -> vec3.
Variable Bfield_Cube : vec3 -> vec3 -> list float -> vec3.

(** Reading the fields of cubes writes nothing. *)
Lemma cube_fields_run (h : heap) (pos : vec3) (srcs : list loc) :
  comprehension (fun s => cube_getB rodrigues Bfield_Cube s pos) srcs h
  = (member_fields rodrigues Bfield_Cube h pos srcs, h).
Proof.
  induction srcs as [|s srcs IH]; simpl; [reflexivity|].
  unfold bind, cube_getB at 1.
  destruct (h !! s) as [c|]; [|reflexivity].
  destruct (Cube_getB rodrigues Bfield_Cube c pos) as [b|e]; simpl;
    [|reflexivity].
  rewrite IH.
  destruct (member_fields rodrigues Bfield_Cube h pos srcs); reflexivity.
Qed.

Lemma cubes_getB_run (w : world heap) (pos : vec3) :
  Collection_getB (cube_getB rodrigues Bfield_Cube) pos w
  = (res_bind (member_fields rodrigues Bfield_Cube (objs w) pos
                 (sources (self w)))
       (fun fields => Ok (py_sum (map NdArray fields))),
     w).
Proof.
  rewrite Collection_getB_run, cube_fields_run. simpl.
  now rewrite world_eta.
Qed.

Lemma member_fields_cons (h : heap) (p : vec3) (s : loc) (c : Cube)
    (b : vec3) (srcs : list loc) :
  h !! s = Some c ->
  Cube_getB rodrigues Bfield_Cube c p = Ok b ->
  member_fields rodrigues Bfield_Cube h p (s :: srcs)
  = res_bind (member_fields rodrigues Bfield_Cube h p srcs)
      (fun bs => Ok (b :: bs)).
Proof.
  intros Hs Hb. simpl. now rewrite Hs, Hb.
Qed.

Lemma member_fields_repeat (h : heap) (p : vec3) (s : loc) (c : Cube)
    (B : vec3) (N : nat) :
  h !! s = Some c ->
  Cube_getB rodrigues Bfield_Cube c p = Ok B ->
  member_fields rodrigues Bfield_Cube h p (repeat s N) = Ok (repeat B N).
Proof.
  intros Hs HB. induction N as [|N IH]; simpl; [reflexivity|].
  now rewrite Hs, HB, IH.
Qed.


(** A magnet in the default pose asks the evaluator for the field at
    the point itself. *)
Lemma Cube_getB_default_pose (m p : vec3) :
  Cube_getB rodrigues Bfield_Cube (cube_with_mag m) p
  = Ok (Bfield_Cube m p [1; 1; 1]).
Proof.
  unfold Cube_getB, cube_with_mag. cbn [super position angle axis
    magnetization dimension].
  change (V3 0 0 0) with vzero. rewrite vsub_vzero. reflexivity.
Qed.


End CubeRuns.

(** ** C1: the field of an empty Collection *)

(** C1. [Collection.getB] of a Collection without sources returns what
    [sum([])] returns, the int [0], whatever the point and the kind of
    members: not the zero array of three floats that the claim and the
    docstring ("magnetic field vector : arr3") promise. *)
Theorem Collection_getB_no_sources :
  forall (St : Type) (src_getB : loc -> vec3 -> M St vec3) (pos : vec3)
         (st : St),
    Collection_getB src_getB pos (mkWorld (Collection_init []) st)
    = (Ok (PyInt 0), mkWorld (Collection_init []) st)
    /\ PyInt 0 <> NdArray vzero.
Proof.
  intros St src_getB pos st. split.
  - rewrite Collection_getB_run. reflexivity.
  - discriminate.
Qed.

(** ** Construction of a cube *)

Lemma HomoMag_init_ok (pos : list float) (ang : float)
    (ax mag : list float) (base : HomoMag) :
  HomoMag_init pos ang ax mag = Ok base ->
  as_vec3 pos = Some (position base) /\ angle base = ang
  /\ as_vec3 ax = Some (axis base) /\ as_vec3 mag = Some (magnetization base).
Proof.
  unfold HomoMag_init.
  destruct (bad_vec3_input pos); [discriminate|].
  destruct (bad_vec3_input ax); [discriminate|].
  destruct (bad_vec3_input mag); [discriminate|].
  destruct (as_vec3 pos), (as_vec3 ax), (as_vec3 mag); try discriminate.
  intros [= <-]. now simpl.
Qed.

Lemma Cube_init_ok (mag dim pos : list float) (ang : float)
    (ax : list float) (c : Cube) :
  Cube_init mag dim pos ang ax = Ok c ->
  HomoMag_init pos ang ax mag = Ok (super c) /\ dimension c = dim
  /\ bad_vec3_input dim = false.
Proof.
  unfold Cube_init, bad_vec3_input.
  destruct (HomoMag_init pos ang ax mag) as [base|e]; simpl; [|discriminate].
  destruct (existsb F64.isnan dim || negb (List.length dim =? 3)%nat);
    [discriminate|].
  intros [= <-]. now simpl.
Qed.

Lemma bad_vec3_input_spec (a : list float) :
  bad_vec3_input a = true
  <-> existsb F64.isnan a = true \/ List.length a <> 3%nat.
Proof.
  unfold bad_vec3_input. rewrite orb_true_iff, negb_true_iff, Nat.eqb_neq.
  reflexivity.
Qed.

(** ** C2: the identity pose *)

(** C2. A cube constructed at [pos=(0,0,0)] with [angle=0] (any axis,
    magnetization and dimension that pass validation) returns at every
    point [p] the value of the evaluator [Bfield_Cube] at [p] itself,
    for the magnetization and the dimension it was given. *)
Theorem Cube_getB_identity_pose :
  forall (rodrigues : float -> vec3 -> vec3 -> vec3)
         (Bfield_Cube : vec3 -> vec3 -> list float -> vec3)
         (mag dim ax : list float) (c : Cube) (p : vec3),
    Cube_init mag dim [0; 0; 0] 0 ax = Ok c ->
    Cube_getB rodrigues Bfield_Cube c p
    = Ok (Bfield_Cube (magnetization (super c)) p (dimension c))
    /\ as_vec3 mag = Some (magnetization (super c))
    /\ dimension c = dim.
Proof.
  intros rodrigues Bfield_Cube mag dim ax c p Hc.
  apply Cube_init_ok in Hc as (Hb & Hd & _).
  apply HomoMag_init_ok in Hb as (Hp & Ha & _ & Hm).
  simpl in Hp. injection Hp as Hp.
  split; [|now split].
  unfold Cube_getB. rewrite <- Hp, Ha.
  change (V3 0 0 0) with vzero. rewrite vsub_vzero.
  reflexivity.
Qed.

Lemma Cube_getB_identity_pose_witness :
  Cube_getB rodrigues_stub Bfield_stub unit_cube docstring_point
  = Ok (Bfield_stub (V3 0 0 1000) docstring_point [1; 1; 1]).
Proof.
  apply (Cube_getB_identity_pose rodrigues_stub Bfield_stub
           [0; 0; 1000] [1; 1; 1] [0; 0; 1] unit_cube docstring_point).
  reflexivity.
Defined.

(** ** C3: superposition *)

Lemma fold_py_add_arrays (fields : list vec3) (acc : vec3) :
  fold_left py_add (map NdArray fields) (NdArray acc)
  = NdArray (fold_left vadd fields acc).
Proof.
  revert acc. induction fields as [|b fields IH]; intros acc; simpl.
  - reflexivity.
  - apply IH.
Qed.

(** On a list that is not empty, [sum] is the sum from the zero array:
    the int [0] it starts from is broadcast as the float [0.0]. *)
Lemma py_sum_arrays (b : vec3) (fields : list vec3) :
  py_sum (map NdArray (b :: fields)) = NdArray (vsum (b :: fields)).
Proof.
  unfold py_sum, vsum. simpl. apply fold_py_add_arrays.
Qed.


(** *** The rounding of float64 additions *)

Module F64Round.

Local Open Scope Z_scope.

Ltac hide_pows :=
  repeat match goal with
         | |- context [Z.pow 2 ?e] =>
             let P := fresh "P" in set (P := Z.pow 2 e) in *; clearbody P
         | H : context [Z.pow 2 ?e] |- _ =>
             let P := fresh "P" in set (P := Z.pow 2 e) in *; clearbody P
         end.

Lemma digits2_pos_bounds (p : positive) :
  2 ^ (Zpos (digits2_pos p) - 1) <= Zpos p < 2 ^ Zpos (digits2_pos p).
Proof.
  induction p as [p IH|p IH|]; cbn [digits2_pos].
  - rewrite Pos2Z.inj_succ, (Pos2Z.inj_xI p).
    replace (Z.succ (Zpos (digits2_pos p)) - 1)
      with (Z.succ (Zpos (digits2_pos p) - 1)) by lia.
    rewrite !Z.pow_succ_r by lia. hide_pows. lia.
  - rewrite Pos2Z.inj_succ, (Pos2Z.inj_xO p).
    replace (Z.succ (Zpos (digits2_pos p)) - 1)
      with (Z.succ (Zpos (digits2_pos p) - 1)) by lia.
    rewrite !Z.pow_succ_r by lia. hide_pows. lia.
  - simpl. lia.
Qed.

Lemma iter_xO (m d : positive) :
  Zpos (Pos.iter xO m d) = Zpos m * 2 ^ Zpos d.
Proof.
  induction d as [|d IH] using Pos.peano_ind.
  - simpl. lia.
  - rewrite Pos.iter_succ, Pos2Z.inj_xO, IH, Pos2Z.inj_succ,
      Z.pow_succ_r by lia. lia.
Qed.

Lemma shl_align_value (m : positive) (e e' : Z) :
  -1074 <= e -> -1074 <= e' ->
  let '(m', e'') := shl_align m e e' in
  Zpos m' * 2 ^ (e'' + 1074) = Zpos m * 2 ^ (e + 1074)
  /\ -1074 <= e'' <= e /\ (e' <= e -> e'' = e').
Proof.
  intros He He'. unfold shl_align. destruct (e' - e) as [|d|d] eqn:E.
  - repeat split; first [reflexivity | lia].
  - repeat split; first [reflexivity | lia].
  - assert (Hd : e = e' + Zpos d) by lia.
    split; [|lia].
    rewrite iter_xO. subst e.
    replace (e' + Zpos d + 1074) with (Zpos d + (e' + 1074)) by lia.
    rewrite (Z.pow_add_r 2 (Zpos d) (e' + 1074)) by lia. ring.
Qed.

Lemma shr_inv_start (m : Z) :
  0 <= m -> shr_inv m 0 (Build_shr_record m false false).
Proof.
  intros Hm. repeat split; simpl; try lia. exists 0. simpl. lia.
Qed.

Lemma shr_inv_step (m k : Z) (r : shr_record) :
  shr_inv m k r -> shr_inv m (k + 1) (shr_1 r).
Proof.
  intros (Hk & Hq & rem & Hm & Hrem & Hloc).
  assert (HP : 0 < 2 ^ k) by (apply Z.pow_pos_nonneg; lia).
  assert (HP2 : 2 ^ (k + 1) = 2 * 2 ^ k)
    by (rewrite Z.pow_add_r by lia; simpl; lia).
  destruct r as [q rb sb]. cbn [shr_m shr_r shr_s] in *.
  unfold shr_inv. rewrite HP2. set (P := 2 ^ k) in *. clearbody P.
  destruct q as [|[p|p|]|p]; cbn [shr_1 shr_m shr_r shr_s];
    try lia; (split; [lia|]); (split; [lia|]).
  - exists rem. destruct rb, sb; cbn [orb]; lia.
  - exists (rem + P). rewrite Pos2Z.inj_xI in Hm.
    destruct rb, sb; cbn [orb]; nia.
  - exists rem. rewrite Pos2Z.inj_xO in Hm.
    destruct rb, sb; cbn [orb]; nia.
  - exists (rem + P). destruct rb, sb; cbn [orb]; nia.
Qed.

Lemma shr_inv_iter (m : Z) (n : positive) :
  forall (k : Z) (r : shr_record),
    shr_inv m k r -> shr_inv m (k + Zpos n) (SpecFloat.iter_pos shr_1 n r).
Proof.
  induction n as [n IH|n IH|]; intros k r H; cbn [SpecFloat.iter_pos].
  - replace (k + Zpos n~1) with (k + 1 + Zpos n + Zpos n) by lia.
    apply IH, IH. now apply shr_inv_step.
  - replace (k + Zpos n~0) with (k + Zpos n + Zpos n) by lia.
    now apply IH, IH.
  - now apply shr_inv_step.
Qed.

Lemma round_nearest_even_error (m k : Z) (r : shr_record) :
  shr_inv m k r ->
  let m1 := round_nearest_even (shr_m r) (loc_of_shr_record r) in
  2 * Z.abs (m1 * 2 ^ k - m) <= 2 ^ k
  /\ shr_m r <= m1 <= shr_m r + 1
  /\ m1 * 2 ^ k < m + 2 ^ k.
Proof.
  intros (Hk & Hq & rem & Hm & Hrem & Hloc).
  assert (HP : 0 < 2 ^ k) by (apply Z.pow_pos_nonneg; lia).
  destruct r as [q rb sb]. cbn [shr_m shr_r shr_s] in *.
  set (P := 2 ^ k) in *. clearbody P.
  destruct rb, sb; cbn [loc_of_shr_record round_nearest_even];
    try destruct (Z.even q); nia.
Qed.


Lemma pow2_pos (e : Z) : 0 <= e -> 0 < 2 ^ e.
Proof. intros. apply Z.pow_pos_nonneg; lia. Qed.

(** [shr_fexp] on an exact mantissa shifts by the number of bits above
    53, for an exponent in the range of float64. *)
Lemma shr_fexp_exact (m : positive) (e : Z) :
  -1074 <= e ->
  exists r n,
    shr_fexp prec emax (Zpos m) e loc_Exact = (r, e + n)
    /\ shr_inv (Zpos m) n r
    /\ ((n = 0 /\ Zpos (digits2_pos m) <= 53)
        \/ (0 < n /\ n = Zpos (digits2_pos m) - 53)).
Proof.
  intros He. unfold shr_fexp, shr, fexp, emin, prec, emax.
  cbn [Zdigits2 shr_record_of_loc].
  destruct (Z.max (Zpos (digits2_pos m) + e - 53) (3 - 1024 - 53) - e)
    as [|n|n] eqn:En.
  - exists (Build_shr_record (Zpos m) false false), 0.
    split; [f_equal; lia|]. split; [apply shr_inv_start; lia|]. left. lia.
  - exists (SpecFloat.iter_pos shr_1 n (Build_shr_record (Zpos m) false false)),
      (Zpos n).
    split; [reflexivity|]. split.
    + apply (shr_inv_iter (Zpos m) n 0). apply shr_inv_start. lia.
    + right. lia.
  - exists (Build_shr_record (Zpos m) false false), 0.
    split; [f_equal; lia|]. split; [apply shr_inv_start; lia|]. left. lia.
Qed.

(** Rounding to nearest of the exact value [mz * 2^ez]: the result is
    an infinity or a finite float with a relative error of at most
    [2^-53]. Values are in units of [2^-1074]. *)
Lemma binary_round_aux_error (s : bool) (mz : positive) (ez : Z) :
  -1074 <= ez ->
  match binary_round_aux prec emax s (Zpos mz) ez loc_Exact with
  | S754_finite s' m e =>
      s' = s /\ -1074 <= e
      /\ 2 ^ 53 * Z.abs (Zpos m * 2 ^ (e + 1074) - Zpos mz * 2 ^ (ez + 1074))
         <= Zpos mz * 2 ^ (ez + 1074)
  | S754_infinity _ => True
  | _ => False
  end.
Proof.
  intros He. unfold binary_round_aux.
  destruct (shr_fexp_exact mz ez He) as (r1 & n1 & -> & Inv1 & Hn1).
  pose proof (round_nearest_even_error _ _ _ Inv1) as (Herr & Hm1 & _).
  pose proof (digits2_pos_bounds mz) as Hd.
  destruct Inv1 as (Hk1 & Hq1 & rem1 & Hmz & Hrem1 & _).
  set (m1 := round_nearest_even (shr_m r1) (loc_of_shr_record r1)) in *.
  clearbody m1.
  assert (HP1 : 0 < 2 ^ n1) by now apply pow2_pos.
  (* the rounded mantissa is close to [mz], and has at most 53 bits or
     is [2^53] *)
  assert (Hclose : 2 ^ 53 * Z.abs (m1 * 2 ^ n1 - Zpos mz) <= Zpos mz
                   /\ 0 < m1
                   /\ (m1 <= 2 ^ 53 \/ (n1 = 0 /\ m1 = Zpos mz))).
  { destruct Hn1 as [[-> Hd53]|[Hpos ->]].
    - change (2 ^ 0) with 1 in *. split; [lia|]. split; [lia|]. right. lia.
    - replace (Zpos (digits2_pos mz))
        with (53 + (Zpos (digits2_pos mz) - 53)) in Hd at 2 by lia.
      replace (Zpos (digits2_pos mz) - 1)
        with (52 + (Zpos (digits2_pos mz) - 53)) in Hd by lia.
      rewrite !Z.pow_add_r in Hd by lia.
      change (2 ^ 53) with 9007199254740992 in *.
      change (2 ^ 52) with 4503599627370496 in *.
      set (P := 2 ^ (Zpos (digits2_pos mz) - 53)) in *. clearbody P.
      split; [lia|]. split; [nia|]. left. nia. }
  destruct Hclose as (Hclose & Hm1pos & Hm1le).
  destruct m1 as [|p1|p1]; try lia.
  assert (He1 : -1074 <= ez + n1) by lia.
  destruct (shr_fexp_exact p1 (ez + n1) He1) as (r2 & n2 & -> & Inv2 & Hn2).
  destruct Inv2 as (Hk2 & Hq2 & rem2 & Hp1 & Hrem2 & _).
  (* the second shift loses nothing *)
  assert (Hexact : Zpos p1 = shr_m r2 * 2 ^ n2 /\ 0 < shr_m r2).
  { destruct Hn2 as [[-> Hd53]|[Hpos Hn2]].
    - change (2 ^ 0) with 1 in *. lia.
    - pose proof (digits2_pos_bounds p1) as Hd1.
      destruct Hm1le as [Hle|[-> [= ->]]].
      2:{ destruct Hn1 as [[_ Hd53]|[Hpos1 _]]; lia. }
      assert (H53 : 2 ^ 53 <= 2 ^ (Zpos (digits2_pos p1) - 1))
        by (apply Z.pow_le_mono_r; lia).
      assert (Hp : Zpos p1 = 2 ^ 53) by lia.
      change (2 ^ 53) with 9007199254740992 in Hp.
      injection Hp as ->. vm_compute in Hn2. subst n2.
      change (2 ^ 1) with 2 in *. lia. }
  destruct Hexact as (Hexact & Hq2pos).
  destruct (shr_m r2) as [|m2|m2]; try lia.
  destruct (ez + n1 + n2 <=? emax - prec); [|exact I].
  split; [reflexivity|]. split; [lia|].
  replace (ez + n1 + n2 + 1074) with (n2 + (n1 + (ez + 1074))) by lia.
  rewrite !Z.pow_add_r by lia.
  assert (HQ : 0 < 2 ^ (ez + 1074)) by (apply pow2_pos; lia).
  replace (Zpos m2 * (2 ^ n2 * (2 ^ n1 * 2 ^ (ez + 1074)))
           - Zpos mz * 2 ^ (ez + 1074))
    with ((Zpos p1 * 2 ^ n1 - Zpos mz) * 2 ^ (ez + 1074))
    by (rewrite Hexact; ring).
  rewrite Z.abs_mul, (Z.abs_eq (2 ^ (ez + 1074))) by lia.
  rewrite Z.mul_assoc. apply Z.mul_le_mono_nonneg_r; lia.
Qed.


Lemma valid_exponent (s : bool) (m : positive) (e : Z) :
  valid_binary (S754_finite s m e) = true -> -1074 <= e.
Proof.
  cbn [SpecFloat.valid_binary]. unfold bounded, canonical_mantissa.
  intros H. apply andb_prop in H as [H _]. apply Z.eqb_eq in H.
  unfold fexp, emin, prec, emax in H. lia.
Qed.

(** The sum that [binary_normalize] rounds is the exact sum. *)
Lemma binary_normalize_error (m ez z : Z) :
  -1074 <= ez ->
  SFunits (binary_normalize prec emax m ez false) = Some z ->
  2 ^ 53 * Z.abs (z - m * 2 ^ (ez + 1074)) <= Z.abs (m * 2 ^ (ez + 1074)).
Proof.
  intros He. assert (HQ : 0 < 2 ^ (ez + 1074)) by (apply pow2_pos; lia).
  destruct m as [|p|p]; cbn [binary_normalize].
  - intros [= <-]. lia.
  - unfold binary_round.
    assert (Hf : -1074 <= fexp prec emax (Zpos (digits2_pos p) + ez))
      by (unfold fexp, emin, prec, emax; lia).
    pose proof (shl_align_value p ez _ He Hf) as Hal.
    destruct (shl_align p ez _) as [mz ez2]. destruct Hal as (Hv & He2 & _).
    pose proof (binary_round_aux_error false mz ez2 (proj1 He2)) as Hr.
    destruct (binary_round_aux prec emax false (Zpos mz) ez2 loc_Exact)
      as [| | |s' m' e']; try easy.
    destruct Hr as (-> & _ & Hr). cbn [SFunits cond_Zopp]. intros [= <-].
    rewrite Hv in Hr. rewrite (Z.abs_eq (Zpos p * _)) by lia. exact Hr.
  - unfold binary_round.
    assert (Hf : -1074 <= fexp prec emax (Zpos (digits2_pos p) + ez))
      by (unfold fexp, emin, prec, emax; lia).
    pose proof (shl_align_value p ez _ He Hf) as Hal.
    destruct (shl_align p ez _) as [mz ez2]. destruct Hal as (Hv & He2 & _).
    pose proof (binary_round_aux_error true mz ez2 (proj1 He2)) as Hr.
    destruct (binary_round_aux prec emax true (Zpos mz) ez2 loc_Exact)
      as [| | |s' m' e']; try easy.
    destruct Hr as (-> & _ & Hr). cbn [SFunits cond_Zopp]. intros [= <-].
    rewrite Hv in Hr.
    replace (Zneg p * 2 ^ (ez + 1074)) with (- (Zpos p * 2 ^ (ez + 1074)))
      by (rewrite <- Pos2Z.opp_pos; ring).
    rewrite Z.abs_opp, (Z.abs_eq (Zpos p * _)) by lia.
    replace (- Zpos m' * 2 ^ (e' + 1074) - - (Zpos p * 2 ^ (ez + 1074)))
      with (- (Zpos m' * 2 ^ (e' + 1074) - Zpos p * 2 ^ (ez + 1074)))
      by ring.
    now rewrite Z.abs_opp.
Qed.

(** A float64 addition that gives a finite float has finite summands
    and a relative error of at most [2^-53]. *)
Lemma SF64add_error (x y : spec_float) (z : Z) :
  valid_binary x = true -> valid_binary y = true ->
  SFunits (SF64add x y) = Some z ->
  exists zx zy,
    SFunits x = Some zx /\ SFunits y = Some zy
    /\ 2 ^ 53 * Z.abs (z - (zx + zy)) <= Z.abs (zx + zy).
Proof.
  intros Hx Hy. unfold SF64add.
  destruct x as [sx|sx| |sx mx ex], y as [sy|sy| |sy my ey];
    cbn [SFadd]; try discriminate;
    try (destruct sx, sy; discriminate).
  - (* zero + zero *)
    intros Hz. exists 0, 0. split; [reflexivity|]. split; [reflexivity|].
    destruct sx, sy; injection Hz as <-; lia.
  - (* zero + finite *)
    cbn [SFunits]. intros [= <-]. eexists 0, _.
    split; [reflexivity|]. split; [reflexivity|]. lia.
  - (* finite + zero *)
    cbn [SFunits]. intros [= <-]. eexists _, 0.
    split; [reflexivity|]. split; [reflexivity|]. lia.
  - (* finite + finite *)
    apply valid_exponent in Hx, Hy. cbv zeta.
    assert (Hez : -1074 <= Z.min ex ey) by lia.
    pose proof (shl_align_value mx ex _ Hx Hez) as Hax.
    pose proof (shl_align_value my ey _ Hy Hez) as Hay.
    destruct (shl_align mx ex (Z.min ex ey)) as [mx' ex'].
    destruct (shl_align my ey (Z.min ex ey)) as [my' ey'].
    destruct Hax as (Hvx & _ & Hex'). destruct Hay as (Hvy & _ & Hey').
    rewrite Hex' in Hvx by lia. rewrite Hey' in Hvy by lia.
    cbn [fst]. intros Hz.
    apply binary_normalize_error in Hz; [|exact Hez].
    cbn [SFunits]. eexists _, _.
    split; [reflexivity|]. split; [reflexivity|].
    replace (cond_Zopp sx (Zpos mx) * 2 ^ (ex + 1074)
             + cond_Zopp sy (Zpos my) * 2 ^ (ey + 1074))
      with ((cond_Zopp sx (Zpos mx') + cond_Zopp sy (Zpos my'))
            * 2 ^ (Z.min ex ey + 1074)); [exact Hz|].
    rewrite Z.mul_add_distr_r. f_equal.
    + destruct sx; cbn [cond_Zopp]; rewrite ?Z.mul_opp_l; now rewrite Hvx.
    + destruct sy; cbn [cond_Zopp]; rewrite ?Z.mul_opp_l; now rewrite Hvy.
Qed.

End F64Round.

(** [units] on some floats: one is [2^1074] units, the smallest
    positive float64 is one unit, and an infinity and a NaN have none. *)
Example units_examples :
  units 1 = Some (2 ^ 1074)%Z
  /\ units (-0.5) = Some (- 2 ^ 1073)%Z
  /\ units 0x1p-1074 = Some 1%Z
  /\ units (-0) = Some 0%Z
  /\ units infinity = None
  /\ units nan = None.
Proof. vm_compute. repeat split. Qed.

Lemma add_error (x y : float) (z : Z) :
  units (x + y) = Some z ->
  exists zx zy,
    units x = Some zx /\ units y = Some zy
    /\ (2 ^ 53 * Z.abs (z - (zx + zy)) <= Z.abs (zx + zy))%Z.
Proof.
  unfold units. rewrite add_spec.
  apply F64Round.SF64add_error; apply Prim2SF_valid.
Qed.

(** [b] added [N] times from zero, as long as the sum is finite, is
    [N] times [b] up to a relative error of [N * 2^-53]. *)
Lemma repeated_add_partial (b : float) (zb : Z) :
  units b = Some zb ->
  forall (N : nat) (zr : Z),
    (Z.of_nat N <= 2 ^ 53)%Z ->
    units (fold_left PrimFloat.add (repeat b N) 0) = Some zr ->
    (2 ^ 53 * Z.abs (zr - Z.of_nat N * zb)
     <= Z.of_nat N * Z.of_nat N * Z.abs zb)%Z.
Proof.
  intros Hb. induction N as [|N IH]; intros zr HN.
  - cbn [repeat fold_left]. intros [= <-]. simpl. lia.
  - cbn [repeat]. rewrite repeat_cons, fold_left_app. cbn [fold_left].
    intros Hz. apply add_error in Hz as (zs & zb' & Hs & Hb' & Hz).
    rewrite Hb in Hb'. injection Hb' as <-.
    specialize (IH zs ltac:(lia) Hs).
    change (2 ^ 53)%Z with 9007199254740992%Z in *.
    rewrite Nat2Z.inj_succ. set (K := Z.of_nat N) in *.
    assert (HK : (0 <= K)%Z) by (unfold K; lia).
    assert (HK' : (K < 9007199254740992)%Z) by lia.
    clearbody K. set (A := Z.abs zb) in *.
    assert (HA : (0 <= A)%Z) by (unfold A; lia).
    assert (Hkz : (Z.abs (K * zb) = K * A)%Z)
      by (unfold A; rewrite Z.abs_mul; lia).
    assert (Hsm : (Z.abs (zs - K * zb) <= K * A)%Z) by nia.
    assert (Hsum : (Z.abs (zs + zb) <= Z.abs (zs - K * zb) + K * A + A)%Z)
      by lia.
    assert (Htri : (Z.abs (zr - Z.succ K * zb)
                    <= Z.abs (zr - (zs + zb)) + Z.abs (zs - K * zb))%Z)
      by lia.
    nia.
Qed.

Lemma repeated_add_error (b : float) (N : nat) :
  N <> 0%nat -> (Z.of_nat N <= 2 ^ 53)%Z ->
  isfinite (fold_left PrimFloat.add (repeat b N) 0) = true ->
  N_times_up_to_rounding N b (fold_left PrimFloat.add (repeat b N) 0).
Proof.
  intros HN Hle. unfold isfinite.
  destruct (units (fold_left PrimFloat.add (repeat b N) 0)) as [zr|] eqn:Hr;
    [intros _|discriminate].
  assert (Hb : exists zb, units b = Some zb).
  { destruct N as [|N]; [congruence|].
    cbn [repeat] in Hr. rewrite repeat_cons, fold_left_app in Hr.
    cbn [fold_left] in Hr.
    apply add_error in Hr as (zs & zb & _ & Hb & _). now exists zb. }
  destruct Hb as [zb Hb]. exists zb, zr. split; [exact Hb|]. split; [exact Hr|].
  pose proof (repeated_add_partial b zb Hb N zr Hle Hr) as H.
  rewrite Z.abs_mul, (Z.abs_eq (Z.of_nat N)) by lia. lia.
Qed.

Lemma fold_vadd_repeat (B : vec3) (N : nat) (acc : vec3) :
  fold_left vadd (repeat B N) acc
  = V3 (fold_left PrimFloat.add (repeat (vx B) N) (vx acc))
       (fold_left PrimFloat.add (repeat (vy B) N) (vy acc))
       (fold_left PrimFloat.add (repeat (vz B) N) (vz acc)).
Proof.
  revert acc. induction N as [|N IH]; intros acc; cbn [repeat fold_left].
  - now destruct acc.
  - now rewrite IH.
Qed.

(** C3, as the code has it. When the members of a non-empty Collection
    return the fields [fields] at [p], [Collection.getB(p)] returns
    their element-wise float64 sum, added from the left in insertion
    order starting from zero. [addSource] appends a reference whether
    or not the list holds it already. For [N >= 1] references to one
    source with the field [B] the result is [B] added [N] times in this
    way, and every component of it that is finite is [N] times the
    component of [B] up to a relative error of [N * 2^-53]
    (for [N <= 2^53]). *)
Theorem Collection_getB_superposition :
  forall (rodrigues : float -> vec3 -> vec3 -> vec3)
         (Bfield_Cube : vec3 -> vec3 -> list float -> vec3)
         (h : heap) (p : vec3),
    (forall (srcs : list loc) (fields : list vec3),
       srcs <> [] ->
       member_fields rodrigues Bfield_Cube h p srcs = Ok fields ->
       Collection_getB (cube_getB rodrigues Bfield_Cube) p
         (mkWorld (mkCollection srcs) h)
       = (Ok (NdArray (vsum fields)), mkWorld (mkCollection srcs) h))
    /\ (forall (srcs : list loc) (s : loc),
          Collection_addSource s (mkWorld (mkCollection srcs) h)
          = (Ok tt, mkWorld (mkCollection (srcs ++ [s])) h))
    /\ (forall (s : loc) (c : Cube) (B : vec3) (N : nat),
          N <> 0%nat ->
          (Z.of_nat N <= 2 ^ 53)%Z ->
          h !! s = Some c ->
          Cube_getB rodrigues Bfield_Cube c p = Ok B ->
          exists R : vec3,
            Collection_getB (cube_getB rodrigues Bfield_Cube) p
              (mkWorld (mkCollection (repeat s N)) h)
            = (Ok (NdArray R), mkWorld (mkCollection (repeat s N)) h)
            /\ R = vsum (repeat B N)
            /\ (isfinite (vx R) = true ->
                N_times_up_to_rounding N (vx B) (vx R))
            /\ (isfinite (vy R) = true ->
                N_times_up_to_rounding N (vy B) (vy R))
            /\ (isfinite (vz R) = true ->
                N_times_up_to_rounding N (vz B) (vz R))).
Proof.
  intros rodrigues Bfield_Cube h p.
  assert (Hsum : forall (srcs : list loc) (fields : list vec3),
    srcs <> [] ->
    member_fields rodrigues Bfield_Cube h p srcs = Ok fields ->
    Collection_getB (cube_getB rodrigues Bfield_Cube) p
      (mkWorld (mkCollection srcs) h)
    = (Ok (NdArray (vsum fields)), mkWorld (mkCollection srcs) h)).
  { intros srcs fields Hne Hf. rewrite cubes_getB_run. simpl. rewrite Hf.
    simpl. destruct fields as [|b fields].
    - destruct srcs as [|s srcs]; [congruence|]. simpl in Hf.
      destruct (h !! s); [|discriminate].
      destruct (Cube_getB _ _ _ _); [|discriminate]. simpl in Hf.
      destruct (member_fields _ _ _ _ _); discriminate.
    - now rewrite py_sum_arrays. }
  split; [exact Hsum|]. split; [reflexivity|].
  intros s c B N HN Hle Hs HB. exists (vsum (repeat B N)).
  split.
  { apply Hsum.
    - destruct N; [congruence|discriminate].
    - now apply (member_fields_repeat _ _ _ _ _ c). }
  split; [reflexivity|].
  unfold vsum. rewrite fold_vadd_repeat. cbn [vx vy vz vzero].
  repeat split; now apply repeated_add_error.
Qed.

Lemma Collection_getB_superposition_witness :
  exists R : vec3,
    Collection_getB (cube_getB rodrigues_stub Bfield_stub) vzero
      (mkWorld (mkCollection (repeat 0%nat 6)) tenth_cube_heap)
    = (Ok (NdArray R), mkWorld (mkCollection (repeat 0%nat 6)) tenth_cube_heap)
    /\ R = V3 0x1.3333333333333p-1 0 0
    /\ N_times_up_to_rounding 6 tenth (vx R)
    /\ N_times_up_to_rounding 6 0 (vy R)
    /\ N_times_up_to_rounding 6 0 (vz R).
Proof.
  pose proof (Collection_getB_superposition rodrigues_stub Bfield_stub
                tenth_cube_heap vzero) as (_ & _ & Hrep).
  destruct (Hrep 0%nat (cube_with_mag (V3 tenth 0 0)) (V3 tenth 0 0) 6%nat)
    as (R & HR & -> & Hx & Hy & Hz).
  - discriminate.
  - vm_compute. discriminate.
  - reflexivity.
  - reflexivity.
  - exists (vsum (repeat (V3 tenth 0 0) 6)).
    split; [exact HR|]. split; [reflexivity|].
    split; [apply Hx; reflexivity|].
    split; [apply Hy; reflexivity|apply Hz; reflexivity].
Defined.

(** C3 as stated fails where the sum overflows. A Collection holds
    eleven references to one magnet and is queried at the centre of the
    magnet. Whenever the field of the magnet there has the x component
    0x1.745d1745d1745p+1020, the x component of what the Collection
    returns is the infinity, while eleven times that component is below
    the largest float64 as a number, and is the largest float64 as the
    float64 product: the two differ by more than any tolerance. So it
    is for the stand-in evaluator, hence not for every evaluator is the
    result eleven times the field of the magnet within a tolerance,
    whatever the tolerance. *)
Lemma Collection_getB_eleven_references_overflow :
  (forall (rodrigues : float -> vec3 -> vec3 -> vec3)
          (Bfield_Cube : vec3 -> vec3 -> list float -> vec3),
     Bfield_Cube (V3 huge 0 0) vzero [1; 1; 1] = V3 huge 0 0 ->
     Cube_getB rodrigues Bfield_Cube (cube_with_mag (V3 huge 0 0)) vzero
     = Ok (V3 huge 0 0)
     /\ fst (Collection_getB (cube_getB rodrigues Bfield_Cube) vzero
               (mkWorld (Collection_init (repeat 0%nat 11)) huge_cube_heap))
        = Ok (NdArray (V3 infinity 0 0)))
  /\ (vscale (F64.of_int 11) (V3 huge 0 0) = V3 max_float64 0 0
      /\ isfinite infinity = false
      /\ exists zb zm,
           units huge = Some zb /\ units max_float64 = Some zm
           /\ (11 * zb < zm)%Z)
  /\ ~ (exists T : Z,
          forall (rodrigues : float -> vec3 -> vec3 -> vec3)
                 (Bfield_Cube : vec3 -> vec3 -> list float -> vec3)
                 (B : vec3),
            Cube_getB rodrigues Bfield_Cube (cube_with_mag (V3 huge 0 0))
              vzero
            = Ok B ->
            exists R : vec3,
              fst (Collection_getB (cube_getB rodrigues Bfield_Cube) vzero
                     (mkWorld (Collection_init (repeat 0%nat 11))
                        huge_cube_heap))
              = Ok (NdArray R)
              /\ N_times_within T 11 (vx B) (vx R)).
Proof.
  assert (Hcond : forall rodrigues Bfield_Cube,
    Bfield_Cube (V3 huge 0 0) vzero [1; 1; 1] = V3 huge 0 0 ->
    Cube_getB rodrigues Bfield_Cube (cube_with_mag (V3 huge 0 0)) vzero
    = Ok (V3 huge 0 0)
    /\ fst (Collection_getB (cube_getB rodrigues Bfield_Cube) vzero
              (mkWorld (Collection_init (repeat 0%nat 11)) huge_cube_heap))
       = Ok (NdArray (V3 infinity 0 0))).
  { intros rodrigues Bfield_Cube HB.
    assert (Hc : Cube_getB rodrigues Bfield_Cube
                   (cube_with_mag (V3 huge 0 0)) vzero
                 = Ok (V3 huge 0 0)).
    { now rewrite Cube_getB_default_pose, HB. }
    split; [exact Hc|].
    rewrite cubes_getB_run, Collection_init_sources.
    cbn [sources self objs fst].
    rewrite (member_fields_repeat _ _ _ _ _
               (cube_with_mag (V3 huge 0 0)) (V3 huge 0 0));
      [reflexivity|reflexivity|exact Hc]. }
  split; [exact Hcond|]. split.
  { split; [reflexivity|]. split; [reflexivity|].
    eexists _, _. split; [reflexivity|]. split; [reflexivity|].
    vm_compute. reflexivity. }
  intros [T Hclaim].
  destruct (Hcond rodrigues_stub Bfield_stub eq_refl) as (Hc & Hsum).
  destruct (Hclaim rodrigues_stub Bfield_stub _ Hc) as (R & HR & Hwithin).
  rewrite Hsum in HR.
  assert (HRx : vx R = infinity).
  { exact (f_equal (fun r => match r with
                             | Ok (NdArray v) => vx v
                             | _ => 0
                             end) (eq_sym HR)). }
  destruct Hwithin as (zb & zr & _ & Hinf & _).
  rewrite HRx in Hinf. vm_compute in Hinf. discriminate.
Qed.

(** ** C4: validation of [dim] *)

(** C4, as the code has it. [Cube.__init__] raises whenever [dim] has a
    NaN component or does not have exactly three components (with the
    message that names [dim] when the base class accepted the other
    arguments); for any other [dim] -- the sign of the side lengths is
    not looked at -- it returns the cube once the base class has
    accepted the other arguments. *)
Theorem Cube_init_validates_dim :
  forall (mag dim pos : list float) (ang : float) (ax : list float),
    (existsb F64.isnan dim = true \/ List.length dim <> 3%nat ->
       raises (Cube_init mag dim pos ang ax)
       /\ (forall base, HomoMag_init pos ang ax mag = Ok base ->
             Cube_init mag dim pos ang ax
             = Raise (SystemExit "Bad dim input for cube")))
    /\ (forall base,
          HomoMag_init pos ang ax mag = Ok base ->
          existsb F64.isnan dim = false -> List.length dim = 3%nat ->
          Cube_init mag dim pos ang ax = Ok (mkCube base dim)).
Proof.
  intros mag dim pos ang ax. split.
  - intros Hbad. apply bad_vec3_input_spec in Hbad.
    unfold bad_vec3_input in Hbad. unfold Cube_init.
    destruct (HomoMag_init pos ang ax mag) as [b|e]; simpl.
    + rewrite Hbad. split; [now eexists|]. reflexivity.
    + split; [now eexists|]. discriminate.
  - intros base Hbase Hnan Hlen. unfold Cube_init. rewrite Hbase. simpl.
    rewrite Hnan, Hlen. reflexivity.
Qed.

Lemma Cube_init_validates_dim_witness :
  raises (Cube_init [0; 0; 1000] [1; 1] default_pos default_angle
            default_axis)
  /\ raises (Cube_init [0; 0; 1000] [1; nan; 1] default_pos default_angle
               default_axis)
  /\ Cube_init [0; 0; 1000] [1; 1; 1] default_pos default_angle default_axis
     = Ok unit_cube.
Proof.
  pose proof (Cube_init_validates_dim [0; 0; 1000] [1; 1] default_pos
                default_angle default_axis) as [Hshort _].
  pose proof (Cube_init_validates_dim [0; 0; 1000] [1; nan; 1] default_pos
                default_angle default_axis) as [Hnan _].
  pose proof (Cube_init_validates_dim [0; 0; 1000] [1; 1; 1] default_pos
                default_angle default_axis) as [_ Hgood].
  split; [|split].
  - apply Hshort. right. simpl. lia.
  - apply Hnan. left. reflexivity.
  - apply (Hgood (super unit_cube)); reflexivity.
Defined.

(** C4 as stated fails. A cube with a negative and a zero side length
    is constructed without any error. *)
Lemma Cube_init_accepts_nonpositive_sides :
  nonpositive_side [-1; 0; 1] = true
  /\ Cube_init [0; 0; 1000] [-1; 0; 1] default_pos default_angle default_axis
     = Ok (mkCube (super unit_cube) [-1; 0; 1])
  /\ ~ raises (Cube_init [0; 0; 1000] [-1; 0; 1] default_pos default_angle
                 default_axis).
Proof.
  split; [reflexivity|]. split; [reflexivity|].
  intros [e He]. discriminate He.
Qed.

(** ** C5: moving a cube and the point together *)




(** ** C6: the order of the members *)






(** ** C7: moving a Collection *)

Lemma Cube_moved_by_0 (d : vec3) (c : Cube) : Cube_moved_by 0 d c = c.
Proof. now destruct c as [[? ? ? ?] ?]. Qed.

Lemma Cube_moved_by_1 (d : vec3) (c : Cube) :
  Cube_moved_by 1 d c = Cube_move c d.
Proof. reflexivity. Qed.

Lemma moved_by_succ_r (n : nat) (d p : vec3) :
  moved_by n d (vadd p d) = moved_by (S n) d p.
Proof.
  unfold moved_by. induction n as [|n IH]; [reflexivity|].
  simpl in *. now rewrite IH.
Qed.

Lemma Cube_moved_by_after_move (n : nat) (d : vec3) (c : Cube) :
  Cube_moved_by n d (Cube_move c d) = Cube_moved_by (S n) d c.
Proof.
  unfold Cube_moved_by, Cube_move, HomoMag_move.
  cbn [super position angle axis magnetization dimension].
  now rewrite moved_by_succ_r.
Qed.

Lemma heap_moved_by_lookup (srcs : list loc) (d : vec3) (h : heap) (s : loc) :
  heap_moved_by srcs d h !! s
  = Cube_moved_by (occurrences s srcs) d <$> h !! s.
Proof.
  unfold heap_moved_by. rewrite map_lookup_imap.
  now destruct (h !! s).
Qed.

(** The loop over the sources moves a cube once for every occurrence
    of its reference. *)
Lemma cube_moves_run (d : vec3) (srcs : list loc) (h : heap) :
  all_allocated h srcs ->
  for_each (fun s => cube_move s d) srcs h = (Ok tt, heap_moved_by srcs d h).
Proof.
  revert h. induction srcs as [|s srcs IH]; intros h Hall.
  - simpl. unfold ret. f_equal. apply map_eq. intros i.
    rewrite heap_moved_by_lookup. destruct (h !! i) as [c|]; [|reflexivity].
    simpl. now rewrite Cube_moved_by_0.
  - unfold all_allocated in Hall. rewrite Forall_cons in Hall.
    destruct Hall as [[c Hs] Hall].
    simpl. unfold bind, cube_move at 1. rewrite Hs.
    rewrite IH.
    + f_equal. apply map_eq. intros i. rewrite !heap_moved_by_lookup.
      unfold occurrences. destruct (Nat.eq_dec s i) as [->|Hne].
      * rewrite lookup_insert_eq, Hs, count_occ_cons_eq by reflexivity.
        simpl. now rewrite Cube_moved_by_after_move.
      * rewrite lookup_insert_ne by assumption.
        now rewrite count_occ_cons_neq by assumption.
    + unfold all_allocated. eapply Forall_impl; [exact Hall|].
      intros i Hi. simpl in Hi. destruct (Nat.eq_dec s i) as [->|Hne].
      * rewrite lookup_insert_eq. now eexists.
      * now rewrite lookup_insert_ne by assumption.
Qed.

(** C7, as the code has it. [Collection.move(d)] returns [None] and
    leaves the list of sources as it was; every cube keeps its angle,
    axis, dimension and magnetization, and its position has [d] added
    once for every occurrence of its reference in the list: not at all
    for a cube outside the Collection, exactly once for a member of a
    Collection without repeated references. *)
Theorem Collection_move_effect :
  forall (h : heap) (srcs : list loc) (d : vec3),
    all_allocated h srcs ->
    Collection_move cube_move d (mkWorld (mkCollection srcs) h)
    = (Ok tt, mkWorld (mkCollection srcs) (heap_moved_by srcs d h))
    /\ (forall s,
          heap_moved_by srcs d h !! s
          = Cube_moved_by (occurrences s srcs) d <$> h !! s)
    /\ (forall s c,
          ~ In s srcs -> h !! s = Some c ->
          heap_moved_by srcs d h !! s = Some c)
    /\ (forall s c,
          NoDup srcs -> In s srcs -> h !! s = Some c ->
          heap_moved_by srcs d h !! s = Some (Cube_move c d)).
Proof.
  intros h srcs d Hall. split; [|split; [|split]].
  - rewrite Collection_move_run. cbn [self objs sources].
    now rewrite cube_moves_run.
  - intros s. apply heap_moved_by_lookup.
  - intros s c Hnot Hs. rewrite heap_moved_by_lookup, Hs. simpl.
    unfold occurrences. apply (count_occ_not_In Nat.eq_dec) in Hnot.
    now rewrite Hnot, Cube_moved_by_0.
  - intros s c Hnd Hin Hs. rewrite heap_moved_by_lookup, Hs. simpl.
    unfold occurrences. apply NoDup_ListNoDup in Hnd.
    rewrite (proj1 (NoDup_count_occ' Nat.eq_dec srcs) Hnd s Hin).
    now rewrite Cube_moved_by_1.
Qed.

Lemma Collection_move_effect_witness :
  Collection_move cube_move (V3 1 1 1)
    (mkWorld (mkCollection [0%nat; 2%nat]) three_cube_heap)
  = (Ok tt,
     mkWorld (mkCollection [0%nat; 2%nat])
       (heap_moved_by [0%nat; 2%nat] (V3 1 1 1) three_cube_heap)).
Proof.
  apply (Collection_move_effect three_cube_heap [0%nat; 2%nat] (V3 1 1 1)).
  allocated.
Defined.

(** C7 as stated fails. A Collection that holds the magnet of the
    docstring twice moves by [(1,1,1)]: the one magnet is moved twice,
    to [(2,2,2)], not to [(1,1,1)]. *)
Lemma Collection_move_twice :
  all_allocated one_cube_heap [0%nat; 0%nat]
  /\ position (super unit_cube) = V3 0 0 0
  /\ (fun c => position (super c))
       <$> objs (snd (Collection_move cube_move (V3 1 1 1)
                        (mkWorld (Collection_init [0%nat; 0%nat])
                           one_cube_heap))) !! 0%nat
     = Some (V3 2 2 2)
  /\ V3 2 2 2 <> vadd (position (super unit_cube)) (V3 1 1 1).
Proof.
  split; [allocated|]. split; [reflexivity|]. split.
  - rewrite Collection_init_sources, Collection_move_run.
    cbn [self objs sources snd].
    rewrite cube_moves_run by allocated.
    cbn [snd]. rewrite heap_moved_by_lookup.
    reflexivity.
  - intros Heq. apply (f_equal vx) in Heq. floats_differ Heq.
Qed.

(** ** C8: [getB] only reads *)

(** C8. [getB] of a cube and [getB] of a Collection of cubes leave every
    cube (position, angle, axis, dimension, magnetization) and the list
    of sources as they were, also when they raise; a second call with
    the same argument returns what the first call returned. *)
Theorem getB_only_reads :
  forall (rodrigues : float -> vec3 -> vec3 -> vec3)
         (Bfield_Cube : vec3 -> vec3 -> list float -> vec3)
         (h : heap) (srcs : list loc) (s : loc) (pos : vec3),
    let w := mkWorld (mkCollection srcs) h in
    let cube_call := cube_getB rodrigues Bfield_Cube s pos in
    let coll_call := Collection_getB (cube_getB rodrigues Bfield_Cube) pos in
    snd (cube_call h) = h
    /\ cube_call (snd (cube_call h)) = cube_call h
    /\ snd (coll_call w) = w
    /\ coll_call (snd (coll_call w)) = coll_call w.
Proof.
  intros rodrigues Bfield_Cube h srcs s pos w cube_call coll_call.
  assert (Hcube : snd (cube_call h) = h).
  { unfold cube_call, cube_getB. now destruct (h !! s). }
  assert (Hcoll : snd (coll_call w) = w).
  { unfold coll_call. now rewrite cubes_getB_run. }
  repeat split.
  - exact Hcube.
  - now rewrite Hcube.
  - exact Hcoll.
  - now rewrite Hcoll.
Qed.

(** ** C9: the rotation primitive *)

(** C9. [angleAxisRotation(angle, axis, v)] raises exactly when [axis]
    is the zero vector and [angle != 0], and what it raises then is the
    input-domain error; when [angle == 0] it returns [v] itself, for
    every axis. *)
Theorem angleAxisRotation_domain :
  forall (rodrigues : float -> vec3 -> vec3 -> vec3)
         (ang : float) (ax v : vec3),
    (raises (angleAxisRotation rodrigues ang ax v)
     <-> is_zero_vector ax = true /\ F64.py_ne ang 0 = true)
    /\ (raises (angleAxisRotation rodrigues ang ax v) ->
        angleAxisRotation rodrigues ang ax v = Raise InputDomainError)
    /\ (F64.py_eq ang 0 = true ->
        forall ax' : vec3, angleAxisRotation rodrigues ang ax' v = Ok v).
Proof.
  intros rodrigues ang ax v.
  unfold angleAxisRotation, F64.py_ne, F64.py_eq, raises.
  destruct (PrimFloat.eqb ang 0) eqn:Hang; simpl.
  - split; [|split].
    + split; [intros [e He]; discriminate He|intros [_ H]; discriminate H].
    + intros [e He]. discriminate He.
    + reflexivity.
  - destruct (is_zero_vector ax) eqn:Hax.
    + split; [|split].
      * split; [now intros _|intros _; now eexists].
      * reflexivity.
      * discriminate.
    + split; [|split].
      * split; [intros [e He]; discriminate He|intros [H _]; discriminate H].
      * intros [e He]. discriminate He.
      * discriminate.
Qed.

Lemma angleAxisRotation_domain_witness :
  angleAxisRotation rodrigues_stub 0 (V3 0 0 0) docstring_point
  = Ok docstring_point
  /\ angleAxisRotation rodrigues_stub 90 (V3 0 0 0) docstring_point
     = Raise InputDomainError.
Proof.
  split.
  - apply (angleAxisRotation_domain rodrigues_stub 0 (V3 0 0 1)
             docstring_point); reflexivity.
  - apply (angleAxisRotation_domain rodrigues_stub 90 (V3 0 0 0)
             docstring_point).
    apply (angleAxisRotation_domain rodrigues_stub 90 (V3 0 0 0)
             docstring_point).
    split; reflexivity.
Defined.

(** ** C10: the default anchor of [Collection.rotate] *)

Lemma recording_rotate_run (ang : float) (ax : vec3) (anchor : anchor_arg)
    (srcs : list loc) (log : list rotate_call) :
  for_each (fun s => recording_rotate s ang ax anchor) srcs log
  = (Ok tt, log ++ map (fun s => mkRotateCall s ang ax anchor) srcs).
Proof.
  revert log. induction srcs as [|s srcs IH]; intros log; simpl.
  - unfold ret. now rewrite app_nil_r.
  - unfold bind, recording_rotate at 1. rewrite IH.
    now rewrite <- app_assoc.
Qed.

(** C10. [Collection.rotate(angle, axis)] without [anchor] calls
    [rotate] of every member, in the order of the list, with the same
    angle and axis and with the string ['self.position'] as anchor,
    whatever the members do with it: for members of any kind it runs as
    the loop over the members with that string does, and members that
    record their calls record the string, which is no array. *)
Theorem Collection_rotate_default_anchor :
  forall (ang : float) (ax : vec3),
    (forall (St : Type)
            (src_rotate : loc -> float -> vec3 -> anchor_arg -> M St unit)
            (w : world St),
       Collection_rotate src_rotate ang ax None w
       = (srcs <- get_sources ;;
          for_each
            (fun s => call (src_rotate s ang ax (AnchorStr "self.position")))
            srcs)%method w)
    /\ (forall (srcs : list loc) (log : list rotate_call),
          Collection_rotate recording_rotate ang ax None
            (mkWorld (mkCollection srcs) log)
          = (Ok tt,
             mkWorld (mkCollection srcs)
               (log ++ map (fun s => mkRotateCall s ang ax
                                       (AnchorStr "self.position")) srcs)))
    /\ (forall v : vec3, AnchorStr "self.position" <> AnchorVec v).
Proof.
  intros ang ax. split; [|split].
  - reflexivity.
  - intros srcs log. unfold Collection_rotate, bind, get_sources.
    cbn [default self sources]. rewrite for_each_call. cbn [objs self].
    now rewrite recording_rotate_run.
  - discriminate.
Qed.

(** * Further properties of the code *)

(** ** More facts of binary64 arithmetic *)

Module F64More.

Lemma SFcompare_refl (x : spec_float) :
  x <> S754_nan -> SFcompare x x = Some Eq.
Proof.
  destruct x as [s|[|]| |[|] m e]; simpl; try congruence; intros _.
  - now rewrite Z.compare_refl, Pos.compare_cont_refl.
  - now rewrite Z.compare_refl, Pos.compare_cont_refl.
Qed.

Lemma isnan_spec (x : float) :
  F64.isnan x = true <-> Prim2SF x = S754_nan.
Proof.
  unfold F64.isnan, is_nan. rewrite FloatAxioms.eqb_spec. unfold SFeqb.
  destruct (Prim2SF x) as [s|s| |s m e] eqn:E.
  - rewrite SFcompare_refl by discriminate. split; discriminate.
  - rewrite SFcompare_refl by discriminate. split; discriminate.
  - split; reflexivity.
  - rewrite SFcompare_refl by discriminate. split; discriminate.
Qed.

(** [0.0 + x] is [x] as a number: only a negative zero loses its
    sign. *)
Lemma zero_add_same_number (x : float) : same_number (0 + x) x = true.
Proof.
  unfold same_number, F64.py_eq. apply orb_true_iff.
  destruct (Prim2SF x) as [s|s| |s m e] eqn:E.
  - right. rewrite FloatAxioms.eqb_spec, add_spec, E.
    change (Prim2SF 0) with (S754_zero false). now destruct s.
  - right. rewrite FloatAxioms.eqb_spec, add_spec, E.
    change (Prim2SF 0) with (S754_zero false). now destruct s.
  - left. apply andb_true_iff. split; apply isnan_spec;
      [rewrite add_spec, E|assumption].
    reflexivity.
  - right. rewrite FloatAxioms.eqb_spec, add_spec, E.
    change (Prim2SF 0) with (S754_zero false).
    change (SF64add (S754_zero false) (S754_finite s m e))
      with (S754_finite s m e).
    unfold SFeqb. now rewrite SFcompare_refl.
Qed.

(** [-x == 0] exactly when [x == 0]. *)
Lemma opp_eq_zero (x : float) : F64.py_eq (- x) 0 = F64.py_eq x 0.
Proof.
  unfold F64.py_eq. rewrite !FloatAxioms.eqb_spec, opp_spec.
  change (Prim2SF 0) with (S754_zero false).
  destruct (Prim2SF x) as [[|]|[|]| |[|] m e]; reflexivity.
Qed.

End F64More.

Lemma is_zero_vector_vneg (a : vec3) :
  is_zero_vector (vneg a) = is_zero_vector a.
Proof.
  unfold is_zero_vector, vneg. cbn [vx vy vz].
  now rewrite !F64More.opp_eq_zero.
Qed.

(** ** The constructor and [addSource] *)

(** X1. The constructor [Collection] holds exactly its arguments, in their
    order and with their repetitions; [addSource] called for the
    references of a list, one after the other, leaves the Collection
    that the constructor builds from the old sources followed by that
    list, and touches no member. *)
Theorem Collection_addSource_sequence :
  forall (St : Type) (srcs new : list loc) (st : St),
    sources (Collection_init srcs) = srcs
    /\ for_each Collection_addSource new (mkWorld (Collection_init srcs) st)
       = (Ok tt, mkWorld (Collection_init (srcs ++ new)) st).
Proof.
  intros St srcs new st. split; [now rewrite Collection_init_sources|].
  rewrite !Collection_init_sources. revert srcs.
  induction new as [|s new IH]; intros srcs; simpl.
  - unfold ret. now rewrite app_nil_r.
  - unfold bind. rewrite Collection_addSource_run. cbn [self sources objs].
    rewrite IH. now rewrite <- app_assoc.
Qed.

(** ** [getB] after [addSource] *)

Lemma member_fields_snoc
    (rodrigues : float -> vec3 -> vec3 -> vec3)
    (Bfield_Cube : vec3 -> vec3 -> list float -> vec3)
    (h : heap) (p : vec3) (srcs : list loc) (fields : list vec3)
    (s : loc) (c : Cube) (b : vec3) :
  member_fields rodrigues Bfield_Cube h p srcs = Ok fields ->
  h !! s = Some c ->
  Cube_getB rodrigues Bfield_Cube c p = Ok b ->
  member_fields rodrigues Bfield_Cube h p (srcs ++ [s]) = Ok (fields ++ [b]).
Proof.
  revert fields. induction srcs as [|s0 srcs IH]; intros fields Hf Hs Hb.
  - injection Hf as <-. simpl. now rewrite Hs, Hb.
  - simpl in *. destruct (h !! s0) as [c0|]; [|discriminate].
    destruct (Cube_getB rodrigues Bfield_Cube c0 p) as [b0|]; [|discriminate].
    simpl in *.
    destruct (member_fields rodrigues Bfield_Cube h p srcs) as [fs|];
      [|discriminate].
    simpl in Hf. injection Hf as <-.
    now rewrite (IH fs eq_refl Hs Hb).
Qed.

Lemma member_fields_ok_inv
    (rodrigues : float -> vec3 -> vec3 -> vec3)
    (Bfield_Cube : vec3 -> vec3 -> list float -> vec3)
    (h : heap) (p : vec3) (srcs : list loc) (T : pyval) :
  res_bind (member_fields rodrigues Bfield_Cube h p srcs)
    (fun fields => Ok (py_sum (map NdArray fields))) = Ok T ->
  exists fields,
    member_fields rodrigues Bfield_Cube h p srcs = Ok fields
    /\ T = py_sum (map NdArray fields).
Proof.
  destruct (member_fields rodrigues Bfield_Cube h p srcs) as [fields|e];
    simpl; [|discriminate].
  intros [= <-]. now exists fields.
Qed.

(** X2. Adding a source adds its field on the right of the total: when
    [getB(p)] of a Collection returns [T] and [s.getB(p)] returns [b],
    then after [addSource(s)] [getB(p)] returns [T + b], for the empty
    Collection too (where [T] is the int [0]). *)
Theorem Collection_getB_after_addSource :
  forall (rodrigues : float -> vec3 -> vec3 -> vec3)
         (Bfield_Cube : vec3 -> vec3 -> list float -> vec3)
         (h : heap) (srcs : list loc) (p : vec3) (T : pyval)
         (s : loc) (c : Cube) (b : vec3),
    fst (Collection_getB (cube_getB rodrigues Bfield_Cube) p
           (mkWorld (mkCollection srcs) h)) = Ok T ->
    h !! s = Some c ->
    Cube_getB rodrigues Bfield_Cube c p = Ok b ->
    fst (Collection_getB (cube_getB rodrigues Bfield_Cube) p
           (snd (Collection_addSource s (mkWorld (mkCollection srcs) h))))
    = Ok (py_add T (NdArray b)).
Proof.
  intros rodrigues Bfield_Cube h srcs p T s c b HT Hs Hb.
  rewrite cubes_getB_run in HT. cbn [fst self objs sources] in HT.
  apply member_fields_ok_inv in HT as (fields & Hf & ->).
  rewrite Collection_addSource_run, cubes_getB_run.
  cbn [fst snd self objs sources].
  rewrite (member_fields_snoc _ _ _ _ _ _ _ _ _ Hf Hs Hb). cbn [res_bind].
  unfold py_sum. now rewrite map_app, fold_left_app.
Qed.

Lemma Collection_getB_after_addSource_witness :
  fst (Collection_getB (cube_getB rodrigues_stub Bfield_stub) docstring_point
         (snd (Collection_addSource 0%nat
                 (mkWorld (mkCollection [0%nat]) one_cube_heap))))
  = Ok (py_add (NdArray (V3 1 0 1001)) (NdArray (V3 1 0 1001))).
Proof.
  apply (Collection_getB_after_addSource rodrigues_stub Bfield_stub
           one_cube_heap [0%nat] docstring_point _ 0%nat unit_cube).
  - reflexivity.
  - reflexivity.
  - reflexivity.
Defined.

(** ** Exceptions of the members *)

Section MemberExceptions.

Context {St : Type}.

Lemma comprehension_stops {A B : Type} (f : A -> M St B) (l1 l2 : list A)
    (a : A) (bs : list B) (e : exn) (st st1 st2 : St) :
  comprehension f l1 st = (Ok bs, st1) ->
  f a st1 = (Raise e, st2) ->
  comprehension f (l1 ++ a :: l2) st = (Raise e, st2).
Proof.
  revert bs st. induction l1 as [|a1 l1 IH]; intros bs st H1 Ha; simpl in *.
  - unfold ret in H1. injection H1 as _ <-. unfold bind. now rewrite Ha.
  - unfold bind in *. destruct (f a1 st) as [[b1|e1] st'] eqn:E1;
      [|discriminate].
    destruct (comprehension f l1 st') as [[bs1|e1] st''] eqn:E2;
      [|discriminate].
    unfold ret in H1. injection H1 as _ <-.
    now rewrite (IH bs1 st' E2 Ha).
Qed.

Lemma for_each_stops {A : Type} (f : A -> M St unit) (l1 l2 : list A)
    (a : A) (e : exn) (st st1 st2 : St) :
  for_each f l1 st = (Ok tt, st1) ->
  f a st1 = (Raise e, st2) ->
  for_each f (l1 ++ a :: l2) st = (Raise e, st2).
Proof.
  revert st. induction l1 as [|a1 l1 IH]; intros st H1 Ha; simpl in *.
  - unfold ret in H1. injection H1 as <-. unfold bind. now rewrite Ha.
  - unfold bind in *. destruct (f a1 st) as [[[]|e1] st'] eqn:E1;
      [|discriminate].
    now apply IH.
Qed.

End MemberExceptions.

(** X3. [Collection.getB] asks the members in the order of the list and
    stops at the first member whose [getB] raises: it raises that
    exception, computes no sum, never asks the members after it, and
    leaves the objects as that member left them. *)
Theorem Collection_getB_first_exception :
  forall (St : Type) (src_getB : loc -> vec3 -> M St vec3) (pos : vec3)
         (w : world St) (before after : list loc) (s : loc)
         (fields : list vec3) (e : exn) (st1 st2 : St),
    sources (self w) = before ++ s :: after ->
    comprehension (fun s' => src_getB s' pos) before (objs w)
    = (Ok fields, st1) ->
    src_getB s pos st1 = (Raise e, st2) ->
    Collection_getB src_getB pos w = (Raise e, mkWorld (self w) st2).
Proof.
  intros St src_getB pos w before after s fields e st1 st2 Hsrcs Hb Hs.
  rewrite Collection_getB_run, Hsrcs.
  now rewrite (comprehension_stops _ _ _ _ _ _ _ _ _ Hb Hs).
Qed.

Lemma Collection_getB_first_exception_witness :
  Collection_getB (cube_getB rodrigues_stub Bfield_stub) docstring_point
    (mkWorld (mkCollection [0%nat; 1%nat; 7%nat]) mixed_cube_heap)
  = (Raise InputDomainError,
     mkWorld (mkCollection [0%nat; 1%nat; 7%nat]) mixed_cube_heap).
Proof.
  apply (Collection_getB_first_exception heap
           (cube_getB rodrigues_stub Bfield_stub) docstring_point
           (mkWorld (mkCollection [0%nat; 1%nat; 7%nat]) mixed_cube_heap)
           [0%nat] [7%nat] 1%nat [V3 1 0 1001] InputDomainError
           mixed_cube_heap mixed_cube_heap).
  - reflexivity.
  - reflexivity.
  - reflexivity.
Defined.

(** X4. [Collection.move] and [Collection.rotate] are loops without
    roll-back: when the call of a member raises, the Collection method
    raises that exception, the members before it in the list keep what
    the call did to them, and the members after it are never called. *)
Theorem Collection_loops_stop_at_exception :
  forall (St : Type) (w : world St) (before after : list loc) (s : loc)
         (e : exn) (st1 st2 : St),
    sources (self w) = before ++ s :: after ->
    (forall (src_move : loc -> vec3 -> M St unit) (d : vec3),
       for_each (fun s' => src_move s' d) before (objs w) = (Ok tt, st1) ->
       src_move s d st1 = (Raise e, st2) ->
       Collection_move src_move d w = (Raise e, mkWorld (self w) st2))
    /\ (forall (src_rotate : loc -> float -> vec3 -> anchor_arg -> M St unit)
               (ang : float) (ax : vec3) (anchor : anchor_arg),
          for_each (fun s' => src_rotate s' ang ax anchor) before (objs w)
          = (Ok tt, st1) ->
          src_rotate s ang ax anchor st1 = (Raise e, st2) ->
          Collection_rotate src_rotate ang ax (Some anchor) w
          = (Raise e, mkWorld (self w) st2)).
Proof.
  intros St w before after s e st1 st2 Hsrcs. split.
  - intros src_move d Hb Hs. rewrite Collection_move_run, Hsrcs.
    now rewrite (for_each_stops _ _ _ _ _ _ _ _ Hb Hs).
  - intros src_rotate ang ax anchor Hb Hs.
    unfold Collection_rotate, bind, get_sources. cbn [default].
    rewrite for_each_call, Hsrcs.
    now rewrite (for_each_stops _ _ _ _ _ _ _ _ Hb Hs).
Qed.

Lemma Collection_loops_stop_at_exception_witness :
  Collection_rotate (failing_rotate 1%nat) 90 (V3 0 0 1)
    (Some (AnchorVec vzero)) (mkWorld (mkCollection [0%nat; 1%nat; 2%nat]) [])
  = (Raise InputDomainError,
     mkWorld (mkCollection [0%nat; 1%nat; 2%nat])
       [mkRotateCall 0%nat 90 (V3 0 0 1) (AnchorVec vzero)]).
Proof.
  pose proof (Collection_loops_stop_at_exception (list rotate_call)
                (mkWorld (mkCollection [0%nat; 1%nat; 2%nat]) [])
                [0%nat] [2%nat] 1%nat InputDomainError
                [mkRotateCall 0%nat 90 (V3 0 0 1) (AnchorVec vzero)]
                [mkRotateCall 0%nat 90 (V3 0 0 1) (AnchorVec vzero)]
                eq_refl) as [_ Hrot].
  apply (Hrot (failing_rotate 1%nat)); reflexivity.
Defined.

(** X5. [Collection.rotate] with an anchor calls [rotate] of the
    members once for every entry of the list, in the order of the list
    (a member that is held twice is rotated twice), and hands every call
    the same angle, axis and anchor. *)
Theorem Collection_rotate_same_arguments :
  forall (ang : float) (ax : vec3) (anchor : anchor_arg)
         (srcs : list loc) (log : list rotate_call),
    Collection_rotate recording_rotate ang ax (Some anchor)
      (mkWorld (mkCollection srcs) log)
    = (Ok tt,
       mkWorld (mkCollection srcs)
         (log ++ map (fun s => mkRotateCall s ang ax anchor) srcs)).
Proof.
  intros ang ax anchor srcs log.
  unfold Collection_rotate, bind, get_sources.
  cbn [default self sources]. rewrite for_each_call. cbn [objs self].
  now rewrite recording_rotate_run.
Qed.

(** ** What a cube keeps *)

Lemma heap_moved_by_Forall (P : Cube -> Prop) (srcs : list loc) (d : vec3)
    (h : heap) :
  (forall n c, P c -> P (Cube_moved_by n d c)) ->
  map_Forall (fun _ c => P c) h ->
  map_Forall (fun _ c => P c) (heap_moved_by srcs d h).
Proof.
  intros Hkeep Hall s c Hs. rewrite heap_moved_by_lookup in Hs.
  destruct (h !! s) as [c0|] eqn:E; [|discriminate].
  simpl in Hs. injection Hs as <-. apply Hkeep. now apply (Hall s).
Qed.

(** X6. A cube that [Cube.__init__] returns has a dimension of exactly
    three components, none of them a NaN; [move] of the cube and
    [Collection.move] keep this for every cube, since they never write
    the dimension. *)
Theorem Cube_dimension_checked_and_kept :
  (forall (mag dim pos : list float) (ang : float) (ax : list float)
          (c : Cube),
     Cube_init mag dim pos ang ax = Ok c -> dimension_ok c)
  /\ (forall (c : Cube) (d : vec3),
        dimension_ok c -> dimension_ok (Cube_move c d))
  /\ (forall (h : heap) (srcs : list loc) (d : vec3),
        all_allocated h srcs ->
        map_Forall (fun _ c => dimension_ok c) h ->
        map_Forall (fun _ c => dimension_ok c)
          (objs (snd (Collection_move cube_move d
                        (mkWorld (mkCollection srcs) h))))).
Proof.
  split; [|split].
  - intros mag dim pos ang ax c Hc.
    apply Cube_init_ok in Hc as (_ & Hd & Hgood).
    unfold dimension_ok. rewrite Hd. unfold bad_vec3_input in Hgood.
    apply orb_false_elim in Hgood as [Hnan Hlen].
    now apply negb_false_iff, Nat.eqb_eq in Hlen.
  - intros c d H. exact H.
  - intros h srcs d Halloc Hall.
    rewrite Collection_move_run. cbn [self objs sources snd].
    rewrite cube_moves_run by assumption. cbn [snd].
    apply heap_moved_by_Forall; [|assumption].
    intros n c H. exact H.
Qed.

Lemma Cube_dimension_checked_and_kept_witness :
  dimension_ok unit_cube
  /\ map_Forall (fun _ c => dimension_ok c)
       (objs (snd (Collection_move cube_move (V3 1 1 1)
                     (mkWorld (mkCollection [0%nat; 0%nat]) one_cube_heap)))).
Proof.
  pose proof Cube_dimension_checked_and_kept as (Hinit & _ & Hmove).
  assert (H : dimension_ok unit_cube).
  { apply (Hinit [0; 0; 1000] [1; 1; 1] default_pos default_angle
             default_axis). reflexivity. }
  split; [exact H|].
  apply Hmove.
  - allocated.
  - intros s c Hs. unfold one_cube_heap in Hs.
    apply lookup_singleton_Some in Hs as [_ <-]. exact H.
Defined.

(** ** Moving a Collection again and again *)

Lemma heap_moved_by_allocated (srcs srcs' : list loc) (d : vec3) (h : heap) :
  all_allocated h srcs' -> all_allocated (heap_moved_by srcs d h) srcs'.
Proof.
  unfold all_allocated. intros H. eapply Forall_impl; [exact H|].
  intros s [c Hs]. simpl. rewrite heap_moved_by_lookup, Hs. now eexists.
Qed.

(** X7. On a Collection of cubes [move] never raises and can be
    repeated: after [move(d1)], [move(d2)] succeeds as well, and a cube
    that the Collection holds once ends at [(position + d1) + d2], with
    its angle, axis, magnetization and dimension as they were. *)
Theorem Collection_move_then_move :
  forall (h : heap) (srcs : list loc) (d1 d2 : vec3),
    all_allocated h srcs ->
    Collection_move cube_move d2
      (snd (Collection_move cube_move d1 (mkWorld (mkCollection srcs) h)))
    = (Ok tt,
       mkWorld (mkCollection srcs)
         (heap_moved_by srcs d2 (heap_moved_by srcs d1 h)))
    /\ (forall s c,
          NoDup srcs -> In s srcs -> h !! s = Some c ->
          heap_moved_by srcs d2 (heap_moved_by srcs d1 h) !! s
          = Some (mkCube
                    (mkHomoMag (vadd (vadd (position (super c)) d1) d2)
                       (angle (super c)) (axis (super c))
                       (magnetization (super c)))
                    (dimension c))).
Proof.
  intros h srcs d1 d2 Hall. split.
  - rewrite (Collection_move_run cube_move d1). cbn [self objs sources snd].
    rewrite cube_moves_run by assumption. cbn [snd].
    rewrite Collection_move_run. cbn [self objs sources].
    rewrite cube_moves_run by now apply heap_moved_by_allocated.
    reflexivity.
  - intros s c Hnd Hin Hs. rewrite !heap_moved_by_lookup, Hs. simpl.
    unfold occurrences. apply NoDup_ListNoDup in Hnd.
    rewrite (proj1 (NoDup_count_occ' Nat.eq_dec srcs) Hnd s Hin).
    reflexivity.
Qed.

Lemma Collection_move_then_move_witness :
  Collection_move cube_move (V3 0 0 2)
    (snd (Collection_move cube_move (V3 1 1 1)
            (mkWorld (mkCollection [0%nat; 2%nat]) three_cube_heap)))
  = (Ok tt,
     mkWorld (mkCollection [0%nat; 2%nat])
       (heap_moved_by [0%nat; 2%nat] (V3 0 0 2)
          (heap_moved_by [0%nat; 2%nat] (V3 1 1 1) three_cube_heap))).
Proof.
  apply (Collection_move_then_move three_cube_heap [0%nat; 2%nat]
           (V3 1 1 1) (V3 0 0 2)).
  allocated.
Defined.

(** ** Moving a Collection and the point together *)

Lemma member_fields_ext
    (rodrigues : float -> vec3 -> vec3 -> vec3)
    (Bfield_Cube : vec3 -> vec3 -> list float -> vec3)
    (h h' : heap) (p q : vec3) (srcs : list loc) :
  (forall s, In s srcs ->
     exists c c', h !! s = Some c /\ h' !! s = Some c'
       /\ Cube_getB rodrigues Bfield_Cube c' q
          = Cube_getB rodrigues Bfield_Cube c p) ->
  member_fields rodrigues Bfield_Cube h' q srcs
  = member_fields rodrigues Bfield_Cube h p srcs.
Proof.
  induction srcs as [|s srcs IH]; intros H; [reflexivity|].
  simpl. destruct (H s (or_introl eq_refl)) as (c & c' & Hs & Hs' & Hg).
  rewrite Hs, Hs', Hg, IH; [reflexivity|].
  intros s0 Hin. apply H. now right.
Qed.

(** X8. A Collection of cubes moves as one body: after [move(d)], a
    query at [q] returns what the query at [p] returned before, provided
    that for every member the float64 vector from its new position to
    [q] is the vector from its old position to [p] (the new position has
    [d] added once for every occurrence of the member in the list). *)
Theorem Collection_getB_after_move :
  forall (rodrigues : float -> vec3 -> vec3 -> vec3)
         (Bfield_Cube : vec3 -> vec3 -> list float -> vec3)
         (h : heap) (srcs : list loc) (d p q : vec3),
    all_allocated h srcs ->
    (forall s c, In s srcs -> h !! s = Some c ->
       vsub q (moved_by (occurrences s srcs) d (position (super c)))
       = vsub p (position (super c))) ->
    fst (Collection_getB (cube_getB rodrigues Bfield_Cube) q
           (snd (Collection_move cube_move d (mkWorld (mkCollection srcs) h))))
    = fst (Collection_getB (cube_getB rodrigues Bfield_Cube) p
             (mkWorld (mkCollection srcs) h)).
Proof.
  intros rodrigues Bfield_Cube h srcs d p q Hall Hrel.
  rewrite Collection_move_run. cbn [self objs sources snd].
  rewrite cube_moves_run by assumption. cbn [snd].
  rewrite !cubes_getB_run. cbn [fst self objs sources].
  f_equal. apply member_fields_ext. intros s Hin.
  unfold all_allocated in Hall. rewrite List.Forall_forall in Hall.
  destruct (Hall s Hin) as [c Hs].
  exists c, (Cube_moved_by (occurrences s srcs) d c).
  split; [assumption|]. split.
  - now rewrite heap_moved_by_lookup, Hs.
  - unfold Cube_getB, Cube_moved_by.
    cbn [super position angle axis magnetization dimension].
    now rewrite (Hrel s c Hin Hs).
Qed.

Lemma Collection_getB_after_move_witness :
  fst (Collection_getB (cube_getB rodrigues_stub Bfield_stub)
         (vadd docstring_point (V3 1 2 3))
         (snd (Collection_move cube_move (V3 1 2 3)
                 (mkWorld (mkCollection [0%nat; 2%nat]) three_cube_heap))))
  = fst (Collection_getB (cube_getB rodrigues_stub Bfield_stub)
           docstring_point
           (mkWorld (mkCollection [0%nat; 2%nat]) three_cube_heap)).
Proof.
  apply (Collection_getB_after_move rodrigues_stub Bfield_stub
           three_cube_heap [0%nat; 2%nat] (V3 1 2 3) docstring_point
           (vadd docstring_point (V3 1 2 3))).
  - allocated.
  - intros s c [<-|[<-|[]]] Hs; vm_compute in Hs; injection Hs as <-;
      reflexivity.
Defined.

(** ** A Collection of one member *)

(** X9. [getB] of a Collection with one member returns the field of
    that member as numbers: every component is [==] to the member's, or
    both are NaN. It is [0 + field], so a component [-0.0] of the field
    comes back as [0.0]. *)
Theorem Collection_getB_of_one :
  forall (rodrigues : float -> vec3 -> vec3 -> vec3)
         (Bfield_Cube : vec3 -> vec3 -> list float -> vec3)
         (h : heap) (s : loc) (c : Cube) (p b : vec3),
    h !! s = Some c ->
    Cube_getB rodrigues Bfield_Cube c p = Ok b ->
    fst (Collection_getB (cube_getB rodrigues Bfield_Cube) p
           (mkWorld (Collection_init [s]) h))
    = Ok (NdArray (vadd vzero b))
    /\ same_numbers (vadd vzero b) b.
Proof.
  intros rodrigues Bfield_Cube h s c p b Hs Hb. split.
  - rewrite cubes_getB_run. cbn [fst self objs sources Collection_init
      fold_left app].
    rewrite (member_fields_cons _ _ _ _ _ _ _ _ Hs Hb). reflexivity.
  - unfold same_numbers, vadd, vzero. cbn [vx vy vz].
    repeat split; apply F64More.zero_add_same_number.
Qed.

Lemma Collection_getB_of_one_witness :
  fst (Collection_getB (cube_getB rodrigues_stub Bfield_stub) docstring_point
         (mkWorld (Collection_init [0%nat]) one_cube_heap))
  = Ok (NdArray (vadd vzero (V3 1 0 1001)))
  /\ same_numbers (vadd vzero (V3 1 0 1001)) (V3 1 0 1001).
Proof.
  apply (Collection_getB_of_one rodrigues_stub Bfield_stub one_cube_heap
           0%nat unit_cube docstring_point (V3 1 0 1001)).
  - reflexivity.
  - reflexivity.
Defined.

(** ** When [Cube.getB] raises *)

(** X10. [Cube.getB] rotates twice by the same angle, about [-axis] and
    about [axis], and [-axis] is the zero vector exactly when [axis] is.
    So, with the rotation as the specification describes it, [getB]
    raises exactly for a cube with [angle != 0] and the zero axis, at
    every point, and what it raises is the input-domain error; every
    other cube returns a field at every point. *)
Theorem Cube_getB_raises_iff :
  forall (rodrigues : float -> vec3 -> vec3 -> vec3)
         (Bfield_Cube : vec3 -> vec3 -> list float -> vec3)
         (c : Cube) (p : vec3),
    (raises (Cube_getB rodrigues Bfield_Cube c p)
     <-> is_zero_vector (axis (super c)) = true
         /\ F64.py_ne (angle (super c)) 0 = true)
    /\ (raises (Cube_getB rodrigues Bfield_Cube c p) ->
        Cube_getB rodrigues Bfield_Cube c p = Raise InputDomainError)
    /\ (~ raises (Cube_getB rodrigues Bfield_Cube c p) ->
        exists B, Cube_getB rodrigues Bfield_Cube c p = Ok B).
Proof.
  intros rodrigues Bfield_Cube c p.
  unfold Cube_getB, angleAxisRotation, F64.py_ne, F64.py_eq, raises.
  rewrite is_zero_vector_vneg.
  destruct (PrimFloat.eqb (angle (super c)) 0); simpl.
  - split; [|split].
    + split; [intros [e He]; discriminate He|intros [_ H]; discriminate H].
    + intros [e He]. discriminate He.
    + intros _. now eexists.
  - destruct (is_zero_vector (axis (super c))); simpl.
    + split; [|split].
      * split; [now intros _|intros _; now eexists].
      * reflexivity.
      * intros H. exfalso. apply H. now eexists.
    + split; [|split].
      * split; [intros [e He]; discriminate He|intros [H _]; discriminate H].
      * intros [e He]. discriminate He.
      * intros _. now eexists.
Qed.

Lemma Cube_getB_raises_iff_witness :
  Cube_getB rodrigues_stub Bfield_stub zero_axis_cube docstring_point
  = Raise InputDomainError.
Proof.
  apply (Cube_getB_raises_iff rodrigues_stub Bfield_stub zero_axis_cube
           docstring_point).
  apply (Cube_getB_raises_iff rodrigues_stub Bfield_stub zero_axis_cube
           docstring_point).
  split; reflexivity.
Defined.

(** ** [displaySystem]: the colours of the magnets *)

Lemma count_magnets_from (srcs : list source) (n : nat) :
  fold_left (fun Nm s => if is_magnet s then S Nm else Nm) srcs n
  = (n + count_magnets srcs)%nat.
Proof.
  unfold count_magnets. revert n.
  induction srcs as [|s srcs IH]; intros n; simpl; [lia|].
  rewrite IH, (IH (if is_magnet s then 1 else 0)%nat).
  destruct (is_magnet s); lia.
Qed.

Lemma count_magnets_all (srcs : list source) :
  Forall (fun s => is_magnet s = true) srcs ->
  count_magnets srcs = List.length srcs.
Proof.
  induction 1 as [|s srcs Hs _ IH]; [reflexivity|].
  unfold count_magnets. simpl. rewrite Hs, count_magnets_from, IH. lia.
Qed.

Section DisplayFacts.

Variable lib : library.





End DisplayFacts.



(** ** [displaySystem]: the limits of the axes *)

Module F64Order.

(** Above a float that is above zero there are only floats above
    zero. *)
Lemma ltb_above_zero (x m : float) :
  PrimFloat.ltb 0 x = true -> PrimFloat.ltb x m = true ->
  PrimFloat.ltb 0 m = true.
Proof.
  rewrite !ltb_spec. change (Prim2SF 0) with (S754_zero false).
  unfold SFltb.
  destruct (Prim2SF x) as [sx|[|]| |[|] mx ex],
           (Prim2SF m) as [sm|[|]| |[|] mm em];
    simpl; try discriminate; reflexivity.
Qed.

End F64Order.

Lemma grow_sane (maxSize : float) (SYSSIZE : pynum) :
  sane_size SYSSIZE -> sane_size (grow maxSize SYSSIZE).
Proof.
  unfold grow. destruct (float_gt maxSize SYSSIZE) eqn:Hgt; [|easy].
  destruct SYSSIZE as [k|x]; simpl in *.
  - intros [-> | ->].
    + exact Hgt.
    + now apply (F64Order.ltb_above_zero 1).
  - intros Hx. now apply (F64Order.ltb_above_zero x).
Qed.

Lemma one_if_zero_sane (SYSSIZE : pynum) :
  sane_size SYSSIZE ->
  sane_size (if num_is_zero SYSSIZE then NumInt 1 else SYSSIZE).
Proof.
  destruct (num_is_zero SYSSIZE); [now right|easy].
Qed.

Section DisplayLimits.

Variable lib : library.

Lemma draw_source_sane (colors : list rgba) (ii : nat) (s : source)
    (SYSSIZE SYSSIZE' : pynum) :
  sane_size SYSSIZE ->
  snd (draw_source lib colors ii s SYSSIZE) = Returns SYSSIZE' ->
  sane_size SYSSIZE'.
Proof.
  intros Hs.
  unfold draw_source, draw_box, draw_cylinder, draw_sphere, draw_line,
    draw_circular, draw_dipole, plot_curve.
  repeat case_match; cbn [snd and_then]; try discriminate;
    repeat (match goal with
            | |- context [and_then ?r _] => destruct r; cbn [and_then]
            end);
    try discriminate; intros [= <-];
    auto using grow_sane, one_if_zero_sane.
  now right.
Qed.

Lemma display_loop_sane (colors : list rgba) (srcs : list source)
    (ii : nat) (SYSSIZE SYSSIZE' : pynum) :
  sane_size SYSSIZE ->
  snd (display_loop lib colors ii srcs SYSSIZE) = Returns SYSSIZE' ->
  sane_size SYSSIZE'.
Proof.
  revert ii SYSSIZE. induction srcs as [|s srcs IH]; intros ii SYSSIZE Hs.
  - simpl. now intros [= <-].
  - simpl. pose proof (draw_source_sane colors ii s SYSSIZE) as Hd.
    destruct (draw_source lib colors ii s SYSSIZE) as [calls [S1|e]];
      cbn [snd] in *; [|discriminate].
    specialize (IH (S ii) S1 (Hd S1 Hs eq_refl)).
    destruct (display_loop lib colors (S ii) srcs S1) as [calls' r].
    exact IH.
Qed.

End DisplayLimits.

(** X12. When [displaySystem] returns, its last calls set the limits of
    all three axes to [(-S, S)] and show the figure, and [S] is the int
    [0] (nothing had an extent), the int [1], or a float above zero:
    never a NaN and never negative, whatever the coordinates are, since
    [S] only changes by [maxSize > SYSSIZE]. *)
Theorem displaySystem_limits :
  forall (lib : library) (srcs : list source) (calls : list plot_call),
    Collection_displaySystem lib srcs = (calls, Returns tt) ->
    exists S, ends_with_limits calls S /\ sane_size S.
Proof.
  intros lib srcs calls. unfold Collection_displaySystem.
  pose proof (display_loop_sane lib (display_colors lib srcs) srcs 0
                (NumInt 0)) as Hsane.
  destruct (display_loop lib (display_colors lib srcs) 0 srcs (NumInt 0))
    as [drawn [S|e]]; cbn [snd] in *; [|discriminate].
  intros [= <-]. exists S. split.
  - exists ([PltFigure; FigGca3d] ++ drawn). now rewrite <- app_assoc.
  - apply Hsane; [now left|reflexivity].
Qed.

Lemma displaySystem_limits_witness :
  exists S,
    ends_with_limits (fst (Collection_displaySystem library_stub
                             [unit_box; a_line])) S
    /\ sane_size S.
Proof.
  apply (displaySystem_limits library_stub [unit_box; a_line]).
  reflexivity.
Defined.

(** ** [displaySystem]: boxes *)

Module F64Mul.

Lemma round_times_one (s : bool) (m : positive) (e : Z) :
  bounded prec emax m e = true ->
  binary_round_aux prec emax s (Zpos (m * 4503599627370496)) (e + -52)
    loc_Exact
  = S754_finite s m e.
Proof.
  intros Hb. unfold bounded in Hb. apply andb_prop in Hb as [Hc He].
  unfold canonical_mantissa in Hc. apply Z.eqb_eq in Hc.
  unfold binary_round_aux, shr_fexp.
  rewrite !Pos.mul_xO_r, Pos.mul_1_r.
  cbn [Zdigits2 digits2_pos].
  rewrite !Pos2Z.inj_succ.
  set (d := Z.pos (digits2_pos m)) in *.
  unfold fexp, SpecFloat.emin in *.
  match goal with
  | |- context [(Z.max ?a ?b - ?c)%Z] =>
      replace (Z.max a b - c)%Z with 52%Z by (unfold prec, emax in *; lia)
  end.
  cbn [shr shr_record_of_loc SpecFloat.iter_pos shr_1 shr_m
       loc_of_shr_record round_nearest_even orb].
  replace (e + -52 + 52)%Z with e by lia.
  cbn [Zdigits2]. fold d. rewrite Hc, Z.sub_diag.
  cbn [shr shr_record_of_loc shr_m].
  now rewrite He.
Qed.

Lemma SF64mul_one (x : spec_float) :
  valid_binary x = true ->
  SF64mul x (S754_finite false 4503599627370496 (-52)) = x.
Proof.
  destruct x as [[|]|[|]| |s m e]; try reflexivity.
  intros Hv. unfold SF64mul, SFmul. rewrite xorb_false_r.
  now apply round_times_one.
Qed.

Lemma SF64mul_neg_one (x : spec_float) :
  valid_binary x = true ->
  SF64mul x (S754_finite true 4503599627370496 (-52)) = SFopp x.
Proof.
  destruct x as [[|]|[|]| |s m e]; try reflexivity.
  intros Hv. unfold SF64mul, SFmul. rewrite xorb_true_r.
  now apply round_times_one.
Qed.

Lemma mul_one_r (x : float) : x * 1 = x.
Proof.
  apply Prim2SF_inj. rewrite mul_spec.
  change (Prim2SF 1) with (S754_finite false 4503599627370496 (-52)).
  apply SF64mul_one, Prim2SF_valid.
Qed.

Lemma mul_neg_one_r (x : float) : x * (-1) = - x.
Proof.
  apply Prim2SF_inj. rewrite mul_spec, opp_spec.
  change (Prim2SF (-1)) with (S754_finite true 4503599627370496 (-52)).
  apply SF64mul_neg_one, Prim2SF_valid.
Qed.

End F64Mul.

Lemma for_all_returns {A B : Type} (f : A -> outcome B) (g : A -> B)
    (l : list A) :
  (forall a, f a = Returns (g a)) -> for_all f l = Returns (map g l).
Proof.
  intros H. induction l as [|a l IH]; [reflexivity|].
  simpl. now rewrite H, IH.
Qed.

Section DisplayBoxes.

Variable lib : library.

Lemma place_defined (s : source) (d : vec3) :
  rotation_defined s ->
  place lib s d = Returns (vadd (rotated lib s d) (src_position s)).
Proof.
  unfold rotation_defined, place, rotated, angleAxisRotation.
  intros [H|H]; rewrite H; [reflexivity|].
  now destruct (F64.py_eq (src_angle s) 0).
Qed.

(** The branch of a box whose rotation does not raise and that has a
    colour: one call, with the faces of its corners. *)
Lemma draw_box_run (colors : list rgba) (ii : nat) (s : source)
    (dimension : vec3) (color : rgba) (SYSSIZE : pynum) :
  rotation_defined s ->
  colors !! ii = Some color ->
  exists faces maxSize,
    box_faces (box_corners lib s dimension) = Returns faces
    /\ draw_box lib colors ii s dimension SYSSIZE
       = ([AddCollection3d faces color], Returns (grow maxSize SYSSIZE))
    /\ draws_a_box (AddCollection3d faces color).
Proof.
  intros Hrot Hc. unfold draw_box.
  rewrite (for_all_returns _ (fun d => vadd (rotated lib s d) (src_position s)))
    by (intros d; now apply place_defined).
  fold (box_corners lib s dimension).
  unfold box_corners, box_v0. cbn [map box_faces and_then].
  unfold item. rewrite Hc. cbn [and_then components flat_map app amax_abs].
  eexists. eexists. split; [reflexivity|]. split; [reflexivity|].
  split; [reflexivity|]. repeat constructor.
Qed.

Lemma display_loop_boxes (colors : list rgba) (srcs : list source)
    (ii : nat) (SYSSIZE : pynum) :
  Forall drawable_box srcs ->
  (forall k, (k < List.length srcs)%nat -> is_Some (colors !! (ii + k)%nat)) ->
  exists drawn SYSSIZE',
    display_loop lib colors ii srcs SYSSIZE = (drawn, Returns SYSSIZE')
    /\ List.length drawn = List.length srcs
    /\ (forall k c, drawn !! k = Some c ->
          draws_a_box c
          /\ exists faces color,
               c = AddCollection3d faces color
               /\ colors !! (ii + k)%nat = Some color).
Proof.
  intros Hall. revert ii SYSSIZE.
  induction Hall as [|s srcs [[dim Hs] Hrot] _ IH]; intros ii SYSSIZE Hcol.
  - exists [], SYSSIZE. split; [reflexivity|]. split; [reflexivity|].
    intros k c Hk. discriminate Hk.
  - destruct (Hcol 0%nat) as [color Hc]; [simpl; lia|].
    rewrite Nat.add_0_r in Hc.
    destruct (draw_box_run colors ii s dim color SYSSIZE Hrot Hc)
      as (faces & m & _ & Hrun & Hbox).
    destruct (IH (S ii) (grow m SYSSIZE)) as (drawn & S' & Hloop & Hlen & Hk).
    { intros k Hlt. replace (S ii + k)%nat with (ii + S k)%nat by lia.
      apply Hcol. simpl. lia. }
    exists (AddCollection3d faces color :: drawn), S'.
    simpl. unfold draw_source. rewrite Hs, Hrun, Hloop.
    split; [reflexivity|]. split; [simpl; lia|].
    intros [|k] c Hlook.
    + injection Hlook as <-. split; [exact Hbox|].
      exists faces, color. now rewrite Nat.add_0_r.
    + simpl in Hlook. destruct (Hk k c Hlook) as [Hb (f & col & -> & Hcc)].
      split; [exact Hb|]. exists f, col. split; [reflexivity|].
      now replace (ii + S k)%nat with (S ii + k)%nat by lia.
Qed.

End DisplayBoxes.

(** X13. For a Collection of boxes whose rotations do not raise (the
    angle is zero or the axis is not), [displaySystem] returns: after
    opening the figure it draws one [Poly3DCollection] for every box, in
    the order of the list, each with six faces of four corners and with
    the colour at the index of the box, then it sets the labels and the
    limits [(-S, S)] and shows the figure. *)
Theorem displaySystem_of_boxes :
  forall (lib : library) (srcs : list source),
    (forall num, List.length (np_linspace lib 0 1 num) = num) ->
    Forall drawable_box srcs ->
    exists drawn S,
      Collection_displaySystem lib srcs
      = ([PltFigure; FigGca3d] ++ drawn
         ++ [SetTickFontsize; SetLabels; AxSetLimits (num_neg S) S;
             PltTightLayout; PltShow],
         Returns tt)
      /\ List.length drawn = List.length srcs
      /\ (forall ii c, drawn !! ii = Some c ->
            draws_a_box c
            /\ exists faces color,
                 c = AddCollection3d faces color
                 /\ display_colors lib srcs !! ii = Some color).
Proof.
  intros lib srcs Hlin Hall.
  assert (Hmag : Forall (fun s => is_magnet s = true) srcs).
  { eapply Forall_impl; [exact Hall|].
    intros s [[dim Hs] _]. unfold is_magnet. now rewrite Hs. }
  destruct (display_loop_boxes lib (display_colors lib srcs) srcs 0
              (NumInt 0) Hall) as (drawn & S & Hloop & Hlen & Hk).
  { intros k Hlt. simpl. apply lookup_lt_is_Some.
    unfold display_colors.
    rewrite length_map, Hlin, (count_magnets_all srcs Hmag). lia. }
  exists drawn, S. unfold Collection_displaySystem. rewrite Hloop.
  split; [reflexivity|]. split; [exact Hlen|]. exact Hk.
Qed.

Lemma displaySystem_of_boxes_witness :
  exists drawn S,
    Collection_displaySystem library_stub [unit_box; unit_box]
    = ([PltFigure; FigGca3d] ++ drawn
       ++ [SetTickFontsize; SetLabels; AxSetLimits (num_neg S) S;
           PltTightLayout; PltShow],
       Returns tt)
    /\ List.length drawn = 2%nat.
Proof.
  destruct (displaySystem_of_boxes library_stub [unit_box; unit_box])
    as (drawn & S & Hrun & Hlen & _).
  - intros num. apply repeat_length.
  - repeat constructor; try (now exists (V3 1 1 1)); now left.
  - exists drawn, S. split; [exact Hrun|exact Hlen].
Defined.

Lemma vmul_signs (D : vec3) :
  vmul D (V3 1 1 (-1)) = V3 (vx D) (vy D) (- vz D)
  /\ vmul D (V3 1 (-1) (-1)) = V3 (vx D) (- vy D) (- vz D)
  /\ vmul D (V3 1 (-1) 1) = V3 (vx D) (- vy D) (vz D)
  /\ vmul D (V3 (-1) 1 1) = V3 (- vx D) (vy D) (vz D)
  /\ vmul D (V3 (-1) 1 (-1)) = V3 (- vx D) (vy D) (- vz D)
  /\ vmul D (V3 (-1) (-1) 1) = V3 (- vx D) (- vy D) (vz D).
Proof.
  unfold vmul. cbn [vx vy vz].
  now rewrite !F64Mul.mul_one_r, !F64Mul.mul_neg_one_r.
Qed.

(** X14. For a box that is not rotated ([angle == 0]) [displaySystem]
    draws the six sides of the box: with [P] the position and [h] half
    the dimension, every corner of every face is one of the points
    [P + (+-h_x, +-h_y, +-h_z)], and the six faces lie, in this order,
    in the planes [x = P_x + h_x], [y = P_y + h_y], [x = P_x - h_x],
    [y = P_y - h_y], [z = P_z + h_z] and [z = P_z - h_z]. *)
Theorem displaySystem_box_sides :
  forall (lib : library) (colors : list rgba) (ii : nat) (s : source)
         (dimension : vec3) (color : rgba) (SYSSIZE : pynum),
    src_shape s = Box dimension ->
    F64.py_eq (src_angle s) 0 = true ->
    colors !! ii = Some color ->
    let P := src_position s in
    let h := vhalf dimension in
    exists f1 f2 f3 f4 f5 f6,
      fst (draw_source lib colors ii s SYSSIZE)
      = [AddCollection3d [f1; f2; f3; f4; f5; f6] color]
      /\ box_side P h vx (vx h + vx P) f1
      /\ box_side P h vy (vy h + vy P) f2
      /\ box_side P h vx (- vx h + vx P) f3
      /\ box_side P h vy (- vy h + vy P) f4
      /\ box_side P h vz (vz h + vz P) f5
      /\ box_side P h vz (- vz h + vz P) f6.
Proof.
  intros lib colors ii s dimension color SYSSIZE Hs Hang Hc P h.
  unfold draw_source. rewrite Hs. unfold draw_box.
  rewrite (for_all_returns _ (fun d => vadd d (src_position s))).
  2:{ intros d. rewrite place_defined by now left.
      unfold rotated. now rewrite Hang. }
  fold h. fold P. unfold box_v0.
  destruct (vmul_signs h) as (-> & -> & -> & -> & -> & ->).
  cbn [map box_faces and_then]. unfold item. rewrite Hc.
  cbn [and_then fst].
  do 6 eexists. split; [reflexivity|].
  unfold box_side, box_corner, vadd, vneg. cbn [vx vy vz List.length].
  repeat (first [split | apply Forall_cons | apply Forall_nil]);
    cbn [vx vy vz];
    first [reflexivity | left; reflexivity | right; reflexivity].
Qed.

Lemma displaySystem_box_sides_witness :
  exists f1 f2 f3 f4 f5 f6,
    fst (draw_source library_stub [(0, 0, 0, 1)] 0 unit_box (NumInt 0))
    = [AddCollection3d [f1; f2; f3; f4; f5; f6] (0, 0, 0, 1)]
    /\ box_side (V3 0 0 0) (V3 0.5 0.5 0.5) vx (0.5 + 0) f1.
Proof.
  destruct (displaySystem_box_sides library_stub [(0, 0, 0, 1)] 0%nat
              unit_box (V3 1 1 1) (0, 0, 0, 1) (NumInt 0) eq_refl eq_refl
              eq_refl)
    as (f1 & f2 & f3 & f4 & f5 & f6 & Hrun & H1 & _).
  exists f1, f2, f3, f4, f5, f6. split; [exact Hrun|exact H1].
Defined.

(** ** [displaySystem]: the limits enclose what is drawn *)

Module F64Leb.

Ltac compare_cases :=
  repeat match goal with
         | H : context [Z.compare ?a ?b] |- _ => destruct (Z.compare_spec a b)
         | |- context [Z.compare ?a ?b] => destruct (Z.compare_spec a b)
         | H : context [Pos.compare ?a ?b] |- _ =>
             destruct (Pos.compare_spec a b)
         | |- context [Pos.compare ?a ?b] => destruct (Pos.compare_spec a b)
         end.

Lemma SFleb_trans (x y z : spec_float) :
  SFleb x y = true -> SFleb y z = true -> SFleb x z = true.
Proof.
  unfold SFleb.
  destruct x as [sx|[|]| |[|] mx ex], y as [sy|[|]| |[|] my ey],
           z as [sz|[|]| |[|] mz ez];
    cbn [SFcompare]; intros Hxy Hyz;
    try discriminate; try reflexivity;
    change (Pos.compare_cont Eq) with Pos.compare in *;
    compare_cases; subst; cbn [CompOpp] in *;
    try discriminate; try reflexivity; exfalso; lia.
Qed.

Lemma SFleb_total (x y : spec_float) :
  x <> S754_nan -> y <> S754_nan -> SFltb x y = false -> SFleb y x = true.
Proof.
  unfold SFleb, SFltb.
  destruct x as [sx|[|]| |[|] mx ex], y as [sy|[|]| |[|] my ey];
    cbn [SFcompare]; intros Hx Hy H;
    try congruence; try reflexivity;
    change (Pos.compare_cont Eq) with Pos.compare in *;
    compare_cases; subst; cbn [CompOpp] in *;
    try discriminate; try reflexivity; exfalso; lia.
Qed.

Lemma SFltb_leb (x y : spec_float) : SFltb x y = true -> SFleb x y = true.
Proof.
  unfold SFleb, SFltb. now destruct (SFcompare x y) as [[| |]|].
Qed.

Lemma SFleb_not_nan (x y : spec_float) :
  SFleb x y = true -> x <> S754_nan /\ y <> S754_nan.
Proof.
  unfold SFleb.
  destruct x as [sx|[|]| |[|] mx ex], y as [sy|[|]| |[|] my ey];
    cbn [SFcompare]; try discriminate; intros _; split; discriminate.
Qed.

Lemma SFleb_total' (x y : spec_float) :
  x <> S754_nan -> y <> S754_nan -> SFleb x y = false -> SFleb y x = true.
Proof.
  unfold SFleb.
  destruct x as [sx|[|]| |[|] mx ex], y as [sy|[|]| |[|] my ey];
    cbn [SFcompare]; intros Hx Hy H;
    try congruence; try reflexivity;
    change (Pos.compare_cont Eq) with Pos.compare in *;
    compare_cases; subst; cbn [CompOpp] in *;
    try discriminate; try reflexivity; exfalso; lia.
Qed.

Lemma not_nan (x : float) : F64.isnan x = false <-> Prim2SF x <> S754_nan.
Proof.
  rewrite <- F64More.isnan_spec. now destruct (F64.isnan x).
Qed.

Lemma leb_trans (x y z : float) :
  PrimFloat.leb x y = true -> PrimFloat.leb y z = true ->
  PrimFloat.leb x z = true.
Proof. rewrite !leb_spec. apply SFleb_trans. Qed.

Lemma leb_refl (x : float) :
  F64.isnan x = false -> PrimFloat.leb x x = true.
Proof.
  rewrite not_nan, leb_spec. intros H. unfold SFleb.
  now rewrite F64More.SFcompare_refl.
Qed.

Lemma not_ltb_leb (x y : float) :
  F64.isnan x = false -> F64.isnan y = false ->
  PrimFloat.ltb x y = false -> PrimFloat.leb y x = true.
Proof. rewrite !not_nan, ltb_spec, leb_spec. apply SFleb_total. Qed.

Lemma not_leb_leb (x y : float) :
  F64.isnan x = false -> F64.isnan y = false ->
  PrimFloat.leb x y = false -> PrimFloat.leb y x = true.
Proof. rewrite !not_nan, !leb_spec. apply SFleb_total'. Qed.

Lemma ltb_leb (x y : float) :
  PrimFloat.ltb x y = true -> PrimFloat.leb x y = true.
Proof. rewrite ltb_spec, leb_spec. apply SFltb_leb. Qed.

Lemma ltb_not_nan (x y : float) :
  PrimFloat.ltb x y = true -> F64.isnan x = false /\ F64.isnan y = false.
Proof.
  intros H. apply ltb_leb in H. rewrite leb_spec in H.
  apply SFleb_not_nan in H. now rewrite !not_nan.
Qed.

Lemma abs_not_nan (x : float) :
  F64.isnan (PrimFloat.abs x) = F64.isnan x.
Proof.
  destruct (F64.isnan x) eqn:E.
  - apply F64More.isnan_spec. apply F64More.isnan_spec in E.
    now rewrite abs_spec, E.
  - apply not_nan. apply not_nan in E. rewrite abs_spec.
    now destruct (Prim2SF x).
Qed.

(** A float that is [== 0] is below one. *)
Lemma zero_leb_one (x : float) :
  F64.py_eq x 0 = true -> PrimFloat.leb x 1 = true.
Proof.
  unfold F64.py_eq. rewrite FloatAxioms.eqb_spec, leb_spec.
  change (Prim2SF 0) with (S754_zero false).
  change (Prim2SF 1) with (S754_finite false 4503599627370496 (-52)).
  now destruct (Prim2SF x) as [sx|[|]| |[|] mx ex].
Qed.

End F64Leb.

(** [numpy.maximum] of two numbers is a number above both. *)
Lemma np_maximum_bound (a b : float) :
  F64.isnan a = false -> F64.isnan b = false ->
  F64.isnan (np_maximum a b) = false
  /\ PrimFloat.leb a (np_maximum a b) = true
  /\ PrimFloat.leb b (np_maximum a b) = true.
Proof.
  intros Ha Hb. unfold np_maximum. rewrite Ha, orb_false_r.
  destruct (PrimFloat.leb b a) eqn:E.
  - auto using F64Leb.leb_refl.
  - auto using F64Leb.leb_refl, F64Leb.not_leb_leb.
Qed.

Lemma fold_np_maximum_bound (a : list float) (acc : float) :
  F64.isnan acc = false -> no_nan a ->
  let m := fold_left np_maximum (map PrimFloat.abs a) acc in
  F64.isnan m = false
  /\ PrimFloat.leb acc m = true
  /\ Forall (fun x => PrimFloat.leb (PrimFloat.abs x) m = true) a.
Proof.
  intros Hacc Ha. revert acc Hacc.
  induction Ha as [|x a Hx _ IH]; intros acc Hacc; simpl.
  - auto using F64Leb.leb_refl.
  - destruct (np_maximum_bound acc (PrimFloat.abs x)) as (Hn & H1 & H2);
      [assumption|now rewrite F64Leb.abs_not_nan|].
    destruct (IH _ Hn) as (Hm & Hle & Hall).
    split; [assumption|]. split.
    + eapply F64Leb.leb_trans; eassumption.
    + constructor; [|assumption]. eapply F64Leb.leb_trans; eassumption.
Qed.

(** [amax(abs(a))] of numbers is a number above the size of each. *)
Lemma amax_abs_bound (a : list float) (m : float) :
  amax_abs a = Returns m -> no_nan a ->
  F64.isnan m = false
  /\ Forall (fun x => PrimFloat.leb (PrimFloat.abs x) m = true) a.
Proof.
  destruct a as [|x a]; [discriminate|]. simpl. intros [= <-] Ha.
  inversion Ha as [|? ? Hx Ha']; subst.
  destruct (fold_np_maximum_bound a (PrimFloat.abs x)) as (Hm & Hle & Hall);
    [now rewrite F64Leb.abs_not_nan|assumption|].
  split; [assumption|]. now constructor.
Qed.

Lemma py_max2_bound (a b : float) :
  F64.isnan a = false -> F64.isnan b = false ->
  F64.isnan (py_max2 a b) = false
  /\ PrimFloat.leb a (py_max2 a b) = true
  /\ PrimFloat.leb b (py_max2 a b) = true.
Proof.
  intros Ha Hb. unfold py_max2. destruct (PrimFloat.ltb a b) eqn:E.
  - auto using F64Leb.leb_refl, F64Leb.ltb_leb.
  - auto using F64Leb.leb_refl, F64Leb.not_ltb_leb.
Qed.

Lemma sane_size_not_nan (S : pynum) :
  sane_size S -> F64.isnan (to_float S) = false.
Proof.
  destruct S as [k|x]; simpl.
  - now intros [-> | ->].
  - intros H. now apply F64Leb.ltb_not_nan in H.
Qed.

(** [SYSSIZE] never shrinks, and after the test it is above a
    [maxSize] that is a number. *)
Lemma grow_above (maxSize : float) (S : pynum) :
  sane_size S ->
  PrimFloat.leb (to_float S) (to_float (grow maxSize S)) = true
  /\ (F64.isnan maxSize = false ->
      PrimFloat.leb maxSize (to_float (grow maxSize S)) = true).
Proof.
  intros Hs. pose proof (sane_size_not_nan S Hs) as Hn.
  unfold grow.
  assert (Hgt : float_gt maxSize S = PrimFloat.ltb (to_float S) maxSize)
    by now destruct S.
  rewrite Hgt. destruct (PrimFloat.ltb (to_float S) maxSize) eqn:E; simpl.
  - split; [now apply F64Leb.ltb_leb|]. apply F64Leb.leb_refl.
  - split; [now apply F64Leb.leb_refl|].
    intros Hm. now apply F64Leb.not_ltb_leb.
Qed.

Lemma one_if_zero_above (S : pynum) :
  sane_size S ->
  PrimFloat.leb (to_float S)
    (to_float (if num_is_zero S then NumInt 1 else S)) = true.
Proof.
  intros Hs. destruct (num_is_zero S) eqn:E.
  - destruct S as [k|x]; simpl in *.
    + apply Z.eqb_eq in E. now subst.
    + now apply F64Leb.zero_leb_one.
  - apply F64Leb.leb_refl. now apply sane_size_not_nan.
Qed.

Lemma within_above (S S' : pynum) (x : float) :
  PrimFloat.leb (to_float S) (to_float S') = true ->
  within S x = true -> within S' x = true.
Proof.
  unfold within. intros H1 H2. eapply F64Leb.leb_trans; eassumption.
Qed.

Lemma within_grow (maxSize : float) (S : pynum) (a : list float) :
  sane_size S ->
  F64.isnan maxSize = false ->
  Forall (fun x => PrimFloat.leb (PrimFloat.abs x) maxSize = true) a ->
  Forall (fun x => within (grow maxSize S) x = true) a.
Proof.
  intros Hs Hm Ha. destruct (grow_above maxSize S Hs) as [_ Hg].
  eapply Forall_impl; [exact Ha|]. intros x Hx. unfold within.
  eapply F64Leb.leb_trans; [exact Hx|]. now apply Hg.
Qed.

Lemma components_Forall (P : float -> Prop) (vs : list vec3) :
  Forall P (components vs) <-> Forall (on_vec P) vs.
Proof.
  unfold components, on_vec. induction vs as [|v vs IH]; simpl.
  - split; constructor.
  - rewrite !Forall_cons, IH. tauto.
Qed.

Lemma grid_components_Forall (P : float -> Prop) (rows : list (list vec3)) :
  Forall P (grid_components rows) <-> Forall (Forall (on_vec P)) rows.
Proof.
  unfold grid_components. induction rows as [|row rows IH]; simpl.
  - split; constructor.
  - rewrite Forall_app, Forall_cons, IH, components_Forall. tauto.
Qed.

Lemma columns_Forall (P : float -> Prop) (vs : list vec3) :
  Forall P (map vx vs ++ map vy vs ++ map vz vs) <-> Forall (on_vec P) vs.
Proof.
  rewrite !Forall_app, !Forall_map. unfold on_vec.
  induction vs as [|v vs IH].
  - split; [constructor|]. intros _. repeat split; constructor.
  - rewrite !Forall_cons. tauto.
Qed.

Lemma box_faces_Forall (P : vec3 -> Prop) (v : list vec3)
    (faces : list (list vec3)) :
  box_faces v = Returns faces ->
  Forall (Forall P) faces <-> Forall P v.
Proof.
  destruct v as [|v0 [|v1 [|v2 [|v3 [|v4 [|v5 [|v6 [|v7 [|v8 v]]]]]]]]];
    try discriminate.
  intros [= <-]. rewrite !Forall_cons, !Forall_nil. tauto.
Qed.

Lemma for_all_inv {A B : Type} (f : A -> outcome B) (l : list A)
    (bs : list B) :
  for_all f l = Returns bs -> Forall2 (fun a b => f a = Returns b) l bs.
Proof.
  revert bs. induction l as [|a l IH]; intros bs; simpl.
  - intros [= <-]. constructor.
  - destruct (f a) as [b|e] eqn:E; [|discriminate]. simpl.
    destruct (for_all f l) as [bs'|e]; [|discriminate]. simpl.
    intros [= <-]. constructor; [assumption|]. now apply IH.
Qed.

Lemma item_In {A : Type} (l : list A) (i : nat) (a : A) :
  item l i = Returns a -> In a l.
Proof.
  unfold item. destruct (l !! i) as [a'|] eqn:E; [|discriminate].
  intros [= <-]. apply list_elem_of_In. now apply list_elem_of_lookup_2 in E.
Qed.

Lemma cylinder_sides_Forall (P : vec3 -> Prop) (vT vB : list vec3) (n : nat)
    (sides : list (list vec3)) :
  cylinder_sides vT vB n = Returns sides ->
  Forall P vT -> Forall P vB -> Forall (Forall P) sides.
Proof.
  unfold cylinder_sides. intros H HT HB. apply for_all_inv in H.
  rewrite List.Forall_forall in HT, HB.
  induction H as [|i side l sides Hi _ IH]; constructor; [|assumption].
  destruct (item vT i) as [a|] eqn:Ea; [|discriminate]. simpl in Hi.
  destruct (item vB i) as [b|] eqn:Eb; [|discriminate]. simpl in Hi.
  destruct (item vB (S i)) as [c|] eqn:Ec; [|discriminate]. simpl in Hi.
  destruct (item vT (S i)) as [d|] eqn:Ed; [|discriminate]. simpl in Hi.
  injection Hi as <-.
  apply item_In in Ea, Eb, Ec, Ed.
  repeat constructor; auto.
Qed.

(** After the test with the [amax] of an array of numbers, all of the
    array is within the limits. *)
Lemma within_after_amax (S : pynum) (vs : list vec3) (m m' : float) :
  sane_size S ->
  amax_abs (components vs) = Returns m ->
  no_nan (components vs) ->
  F64.isnan m' = false ->
  PrimFloat.leb m m' = true ->
  Forall (on_vec (fun x => within (grow m' S) x = true)) vs.
Proof.
  intros Hs Hm Hn Hm' Hle.
  destruct (amax_abs_bound _ _ Hm Hn) as [_ Hall].
  apply components_Forall. apply within_grow; [assumption|assumption|].
  eapply Forall_impl; [exact Hall|]. intros x Hx.
  eapply F64Leb.leb_trans; [exact Hx|exact Hle].
Qed.

Section DisplayEncloses.

Variable lib : library.

Lemma plot_curve_encloses (vs : list vec3) (S S' : pynum)
    (calls : list plot_call) :
  sane_size S ->
  plot_curve vs S = (calls, Returns S') ->
  PrimFloat.leb (to_float S) (to_float S') = true
  /\ (forall c, In c calls -> no_nan (call_coordinates c) ->
        Forall (fun x => within S' x = true) (call_coordinates c)).
Proof.
  intros Hs. unfold plot_curve. destruct vs as [|v vs]; [discriminate|].
  destruct (amax_abs (components (v :: vs))) as [m|e] eqn:Hm;
    cbn [and_then]; [|discriminate].
  intros [= <- <-]. split; [now apply grow_above|].
  intros c [<-|[]] Hn. cbn [call_coordinates] in *.
  apply (columns_Forall _ (v :: vs)). apply (columns_Forall _ (v :: vs)) in Hn.
  apply components_Forall in Hn.
  destruct (amax_abs_bound _ _ Hm Hn) as [Hmn _].
  apply (within_after_amax S (v :: vs) m m); auto using F64Leb.leb_refl.
Qed.

Lemma draw_source_encloses (colors : list rgba) (ii : nat) (s : source)
    (S S' : pynum) (calls : list plot_call) :
  sane_size S ->
  not_a_sphere s ->
  draw_source lib colors ii s S = (calls, Returns S') ->
  PrimFloat.leb (to_float S) (to_float S') = true
  /\ (forall c, In c calls -> no_nan (call_coordinates c) ->
        Forall (fun x => within S' x = true) (call_coordinates c)).
Proof.
  intros Hs Hns. unfold draw_source, not_a_sphere in *.
  destruct (src_shape s) as [dim|dim|dim|vertices|dim|moment|].
  - (* Box *)
    unfold draw_box.
    destruct (for_all (place lib s) _) as [v|e]; cbn [and_then];
      [|discriminate].
    destruct (box_faces v) as [faces|e] eqn:Hf; cbn [and_then];
      [|discriminate].
    destruct (item colors ii) as [color|e]; cbn [and_then]; [|discriminate].
    destruct (amax_abs (components v)) as [m|e] eqn:Hm; cbn [and_then];
      [|discriminate].
    intros [= <- <-]. split; [now apply grow_above|].
    intros c [<-|[]] Hn. cbn [call_coordinates] in *.
    apply grid_components_Forall. apply grid_components_Forall in Hn.
    apply (box_faces_Forall _ _ _ Hf). apply (box_faces_Forall _ _ _ Hf) in Hn.
    apply components_Forall in Hn.
    destruct (amax_abs_bound _ _ Hm Hn) as [Hmn _].
    apply (within_after_amax S v m m); auto using F64Leb.leb_refl.
  - (* Cylinder *)
    unfold draw_cylinder. cbv zeta.
    destruct (for_all (place lib s) _) as [vB|e]; cbn [and_then];
      [|discriminate].
    destruct (for_all (place lib s) _) as [vT|e]; cbn [and_then];
      [|discriminate].
    destruct (cylinder_sides vT vB _) as [sides|e] eqn:Hsides;
      cbn [and_then]; [|discriminate].
    destruct (item colors ii) as [color|e]; cbn [and_then]; [|discriminate].
    destruct (amax_abs (components vB)) as [mB|e] eqn:HmB; cbn [and_then];
      [|discriminate].
    destruct (amax_abs (components vT)) as [mT|e] eqn:HmT; cbn [and_then];
      [|discriminate].
    intros [= <- <-]. split; [now apply grow_above|].
    intros c [<-|[]] Hn. cbn [call_coordinates] in *.
    apply grid_components_Forall. apply grid_components_Forall in Hn.
    rewrite Forall_app, !Forall_cons in Hn.
    destruct Hn as (_ & HnT & HnB & _).
    apply components_Forall in HnT, HnB.
    destruct (amax_abs_bound _ _ HmB HnB) as [HB _].
    destruct (amax_abs_bound _ _ HmT HnT) as [HT _].
    destruct (py_max2_bound mB mT HB HT) as (Hmax & HleB & HleT).
    pose proof (within_after_amax S vB mB _ Hs HmB HnB Hmax HleB) as HwB.
    pose proof (within_after_amax S vT mT _ Hs HmT HnT Hmax HleT) as HwT.
    rewrite Forall_app, !Forall_cons.
    split; [|now repeat split].
    now apply (cylinder_sides_Forall _ _ _ _ _ Hsides).
  - (* Sphere *)
    contradiction.
  - (* Line *)
    unfold draw_line.
    destruct (for_all (place lib s) vertices) as [vs|e]; [|discriminate].
    now apply plot_curve_encloses.
  - (* Circular *)
    unfold draw_circular. cbv zeta.
    destruct (for_all (place lib s) _) as [vs|e]; [|discriminate].
    now apply plot_curve_encloses.
  - (* Dipole *)
    unfold draw_dipole.
    destruct (of_res (rotatePosition lib (src_position s) _ _)) as [P|e];
      cbn [and_then]; [|discriminate].
    destruct (of_res (rotatePosition lib moment _ _)) as [M|e];
      cbn [and_then]; [|discriminate].
    destruct (amax_abs (components [P])) as [m|e]; cbn [and_then];
      [|discriminate].
    intros [= <- <-]. split.
    + eapply F64Leb.leb_trans; [now apply (grow_above m S)|].
      apply one_if_zero_above. now apply grow_sane.
    + intros c [<-|[]] _. constructor.
  - (* no branch *)
    intros [= <- <-]. split.
    + apply F64Leb.leb_refl. now apply sane_size_not_nan.
    + intros c [].
Qed.

Lemma display_loop_encloses (colors : list rgba) (srcs : list source)
    (ii : nat) (S S' : pynum) (calls : list plot_call) :
  sane_size S ->
  Forall not_a_sphere srcs ->
  display_loop lib colors ii srcs S = (calls, Returns S') ->
  PrimFloat.leb (to_float S) (to_float S') = true
  /\ (forall c, In c calls -> no_nan (call_coordinates c) ->
        Forall (fun x => within S' x = true) (call_coordinates c)).
Proof.
  intros Hs Hall. revert ii S calls Hs.
  induction Hall as [|s srcs Hns _ IH]; intros ii S calls Hs; simpl.
  - intros [= <- <-]. split.
    + apply F64Leb.leb_refl. now apply sane_size_not_nan.
    + intros c [].
  - destruct (draw_source lib colors ii s S) as [calls1 [S1|e]] eqn:Hd;
      [|discriminate].
    destruct (draw_source_encloses colors ii s S S1 calls1 Hs Hns Hd)
      as [Hle1 Hin1].
    assert (Hs1 : sane_size S1).
    { apply (draw_source_sane lib colors ii s S S1 Hs). now rewrite Hd. }
    destruct (display_loop lib colors (Datatypes.S ii) srcs S1)
      as [calls2 r] eqn:Hl.
    intros [= <- ->].
    destruct (IH _ _ _ Hs1 Hl) as [Hle2 Hin2].
    split; [eapply F64Leb.leb_trans; eassumption|].
    intros c Hc Hn. apply in_app_or in Hc as [Hc|Hc].
    + eapply Forall_impl; [exact (Hin1 c Hc Hn)|].
      intros x Hx. now apply (within_above S1 S').
    + now apply Hin2.
Qed.

End DisplayEncloses.

(** X15. The limits enclose what is drawn: when [displaySystem] returns
    for a Collection without spheres, then for every box, cylinder,
    line and loop that it drew and whose coordinates are all numbers,
    every coordinate [x] of its corners or points has [|x| <= S] for the
    limits [(-S, S)]. (An array with a NaN fails the test
    [maxSize > SYSSIZE] and does not count.) *)
Theorem displaySystem_limits_enclose :
  forall (lib : library) (srcs : list source) (calls : list plot_call),
    Forall not_a_sphere srcs ->
    Collection_displaySystem lib srcs = (calls, Returns tt) ->
    exists S,
      ends_with_limits calls S
      /\ (forall c, In c calls -> no_nan (call_coordinates c) ->
            Forall (fun x => within S x = true) (call_coordinates c)).
Proof.
  intros lib srcs calls Hall. unfold Collection_displaySystem.
  destruct (display_loop lib (display_colors lib srcs) 0 srcs (NumInt 0))
    as [drawn [S|e]] eqn:Hl; [|discriminate].
  intros [= <-]. exists S. split.
  - exists ([PltFigure; FigGca3d] ++ drawn). now rewrite <- app_assoc.
  - destruct (display_loop_encloses lib (display_colors lib srcs) srcs 0
                (NumInt 0) S drawn) as [_ Hin];
      [now left|assumption|assumption|].
    intros c Hc Hn.
    destruct Hc as [<-|[<-|Hc]]; try constructor.
    apply in_app_or in Hc as [Hc|Hc]; [now apply Hin|].
    destruct Hc as [<-|[<-|[<-|[<-|[<-|[]]]]]]; constructor.
Qed.

Lemma displaySystem_limits_enclose_witness :
  exists S,
    ends_with_limits (fst (Collection_displaySystem library_stub
                             [unit_box; a_line])) S
    /\ (forall c,
          In c (fst (Collection_displaySystem library_stub
                       [unit_box; a_line])) ->
          no_nan (call_coordinates c) ->
          Forall (fun x => within S x = true) (call_coordinates c)).
Proof.
  apply (displaySystem_limits_enclose library_stub [unit_box; a_line]).
  - repeat constructor.
  - reflexivity.
Defined.

(** ** [displaySystem]: a source is drawn as a whole or not at all *)

Lemma for_all_no_ValueError {A B : Type} (f : A -> outcome B)
    (l : list A) :
  (forall a, f a <> Raises ValueError) -> for_all f l <> Raises ValueError.
Proof.
  intros Hf. induction l as [|a l IH]; simpl; [discriminate|].
  specialize (Hf a). destruct (f a) as [b|e]; simpl; [|congruence].
  destruct (for_all f l) as [bs|e]; simpl; [discriminate|congruence].
Qed.

Lemma item_no_ValueError {A : Type} (l : list A) (i : nat) :
  item l i <> Raises ValueError.
Proof. unfold item. now destruct (l !! i). Qed.

Lemma of_res_no_ValueError {A : Type} (r : res A) :
  of_res r <> Raises ValueError.
Proof. now destruct r. Qed.

Lemma box_faces_no_ValueError (v : list vec3) :
  box_faces v <> Raises ValueError.
Proof. unfold box_faces. repeat case_match; discriminate. Qed.

Lemma amax_abs_nonempty (v : vec3) (vs : list vec3) :
  exists m, amax_abs (components (v :: vs)) = Returns m.
Proof. simpl. now eexists. Qed.

Lemma item_nonempty {A : Type} (l : list A) (a : A) :
  item l 0 = Returns a -> exists l', l = a :: l'.
Proof.
  unfold item. destruct l as [|a' l']; [discriminate|]. simpl.
  intros [= <-]. now eexists.
Qed.

Lemma cylinder_sides_no_ValueError (vT vB : list vec3) (n : nat) :
  cylinder_sides vT vB n <> Raises ValueError.
Proof.
  apply for_all_no_ValueError. intros i.
  pose proof (item_no_ValueError vT i). pose proof (item_no_ValueError vB i).
  pose proof (item_no_ValueError vB (S i)).
  pose proof (item_no_ValueError vT (S i)).
  destruct (item vT i); simpl; [|congruence].
  destruct (item vB i); simpl; [|congruence].
  destruct (item vB (S i)); simpl; [|congruence].
  destruct (item vT (S i)); simpl; [discriminate|congruence].
Qed.

Lemma cylinder_sides_nonempty (vT vB : list vec3) (n : nat)
    (sides : list (list vec3)) :
  cylinder_sides vT vB (S n) = Returns sides ->
  (exists v vT', vT = v :: vT') /\ (exists v vB', vB = v :: vB').
Proof.
  unfold cylinder_sides. cbn [seq for_all].
  destruct (item vT 0) as [a|] eqn:Ea; [|discriminate].
  destruct (item vB 0) as [b|] eqn:Eb; [|discriminate].
  intros _. apply item_nonempty in Ea as [? ->].
  apply item_nonempty in Eb as [? ->]. split; eauto.
Qed.

Lemma item2_no_ValueError (vs : list (list vec3)) (i j : nat) :
  item2 vs i j <> Raises ValueError.
Proof.
  unfold item2. pose proof (item_no_ValueError vs i).
  destruct (item vs i) as [row|]; simpl; [|congruence].
  apply item_no_ValueError.
Qed.

Lemma sphere_faces_no_ValueError (vs : list (list vec3)) (n : nat) :
  sphere_faces vs n <> Raises ValueError.
Proof.
  unfold sphere_faces.
  match goal with
  | |- and_then ?r _ <> _ => assert (Hr : r <> Raises ValueError)
  end.
  { apply for_all_no_ValueError. intros j.
    apply for_all_no_ValueError. intros i.
    pose proof (item2_no_ValueError vs i j).
    pose proof (item2_no_ValueError vs (S i) j).
    pose proof (item2_no_ValueError vs (S i) (S j)).
    pose proof (item2_no_ValueError vs i (S j)).
    destruct (item2 vs i j); simpl; [|congruence].
    destruct (item2 vs (S i) j); simpl; [|congruence].
    destruct (item2 vs (S i) (S j)); simpl; [|congruence].
    destruct (item2 vs i (S j)); simpl; [discriminate|congruence]. }
  match goal with
  | |- and_then ?r _ <> _ => destruct r; simpl; [discriminate|congruence]
  end.
Qed.

Lemma sphere_faces_nonempty (vs : list (list vec3)) (n : nat)
    (faces : list (list vec3)) :
  sphere_faces vs (S n) = Returns faces ->
  exists v row rows, vs = (v :: row) :: rows.
Proof.
  unfold sphere_faces. cbn [seq for_all].
  destruct (item2 vs 0 0) as [a|] eqn:Ea; [|discriminate].
  intros _. unfold item2 in Ea.
  destruct (item vs 0) as [row|] eqn:Er; [|discriminate].
  apply item_nonempty in Er as [? ->]. simpl in Ea.
  apply item_nonempty in Ea as [? ->]. eauto.
Qed.

Section DisplayWhole.

Variable lib : library.

Lemma place_no_ValueError (s : source) (d : vec3) :
  place lib s d <> Raises ValueError.
Proof.
  unfold place.
  pose proof (of_res_no_ValueError
    (angleAxisRotation (lib_rodrigues lib) (src_angle s) (src_axis s) d)).
  destruct (of_res _); simpl; [discriminate|congruence].
Qed.

Lemma places_no_ValueError (s : source) (l : list vec3) :
  for_all (place lib s) l <> Raises ValueError.
Proof. apply for_all_no_ValueError, place_no_ValueError. Qed.

Lemma plot_curve_whole (vs : list vec3) (S : pynum) :
  match plot_curve vs S with
  | (calls, Raises e) => calls = [] /\ e <> ValueError
  | (calls, Returns _) => exists xs ys zs, calls = [AxPlot xs ys zs]
  end.
Proof.
  unfold plot_curve. destruct vs as [|v vs]; [easy|].
  destruct (amax_abs_nonempty v vs) as [m ->]. simpl. eauto.
Qed.

(** The body of the loop either raises before it has drawn anything,
    and not the [ValueError] of [amax], or draws the source and goes on. *)
Lemma draw_source_whole (colors : list rgba) (ii : nat) (s : source)
    (S : pynum) :
  match draw_source lib colors ii s S with
  | (calls, Raises e) => calls = [] /\ e <> ValueError
  | (calls, Returns _) => drawn_for s calls
  end.
Proof.
  unfold draw_source, drawn_for.
  destruct (src_shape s) as [dim|dim|dim|vertices|dim|moment|].
  - (* Box *)
    unfold draw_box.
    pose proof (places_no_ValueError s (box_v0 (vhalf dim))) as Hv.
    destruct (for_all (place lib s) _) as [v|e]; cbn [and_then];
      [|split; congruence].
    pose proof (box_faces_no_ValueError v) as Hf.
    destruct (box_faces v) as [faces|e] eqn:Ef; cbn [and_then];
      [|split; congruence].
    pose proof (item_no_ValueError colors ii) as Hc.
    destruct (item colors ii) as [color|e]; cbn [and_then];
      [|split; congruence].
    destruct v as [|v0 v]; [discriminate|].
    destruct (amax_abs_nonempty v0 v) as [m ->]. simpl. eauto.
  - (* Cylinder *)
    unfold draw_cylinder. cbv zeta.
    match goal with
    | |- context [and_then (for_all (place lib s) ?l) _] =>
        pose proof (places_no_ValueError s l) as HB;
        destruct (for_all (place lib s) l) as [vB|e]; cbn [and_then];
          [|split; congruence]
    end.
    match goal with
    | |- context [and_then (for_all (place lib s) ?l) _] =>
        pose proof (places_no_ValueError s l) as HT;
        destruct (for_all (place lib s) l) as [vT|e]; cbn [and_then];
          [|split; congruence]
    end.
    change (20 - 1)%nat with 19%nat.
    pose proof (cylinder_sides_no_ValueError vT vB 19) as Hs.
    destruct (cylinder_sides vT vB 19) as [sides|e] eqn:Es; cbn [and_then];
      [|split; congruence].
    pose proof (item_no_ValueError colors ii) as Hc.
    destruct (item colors ii) as [color|e]; cbn [and_then];
      [|split; congruence].
    apply cylinder_sides_nonempty in Es as [(t & vT' & ->) (b & vB' & ->)].
    destruct (amax_abs_nonempty b vB') as [mB ->].
    destruct (amax_abs_nonempty t vT') as [mT ->]. simpl. eauto.
  - (* Sphere *)
    unfold draw_sphere. cbv zeta.
    match goal with
    | |- context [and_then (for_all (for_all (place lib s)) ?l) _] =>
        assert (Hv : for_all (for_all (place lib s)) l <> Raises ValueError)
          by (apply for_all_no_ValueError; intros row;
              apply places_no_ValueError);
        destruct (for_all (for_all (place lib s)) l) as [vs|e];
          cbn [and_then]; [|split; congruence]
    end.
    change (12 - 1)%nat with 11%nat.
    pose proof (sphere_faces_no_ValueError vs 11) as Hs.
    destruct (sphere_faces vs 11) as [faces|e] eqn:Es; cbn [and_then];
      [|split; congruence].
    pose proof (item_no_ValueError colors ii) as Hc.
    destruct (item colors ii) as [color|e]; cbn [and_then];
      [|split; congruence].
    apply sphere_faces_nonempty in Es as (v & row & rows & ->).
    simpl. eauto.
  - (* Line *)
    unfold draw_line. cbv zeta.
    pose proof (places_no_ValueError s vertices) as Hv.
    destruct (for_all (place lib s) vertices) as [vs|e];
      [|split; congruence].
    apply plot_curve_whole.
  - (* Circular *)
    unfold draw_circular. cbv zeta.
    match goal with
    | |- context [for_all (place lib s) ?l] =>
        pose proof (places_no_ValueError s l) as Hv;
        destruct (for_all (place lib s) l) as [vs|e]; [|split; congruence]
    end.
    apply plot_curve_whole.
  - (* Dipole *)
    unfold draw_dipole.
    pose proof (of_res_no_ValueError
      (rotatePosition lib (src_position s) (src_angle s) (src_axis s))) as HP.
    destruct (of_res (rotatePosition lib (src_position s) _ _)) as [P|e];
      cbn [and_then]; [|split; congruence].
    pose proof (of_res_no_ValueError
      (rotatePosition lib moment (src_angle s) (src_axis s))) as HM.
    destruct (of_res (rotatePosition lib moment _ _)) as [M|e];
      cbn [and_then]; [|split; congruence].
    simpl. eauto.
  - reflexivity.
Qed.

Lemma display_loop_whole (colors : list rgba) (srcs : list source)
    (ii : nat) (S : pynum) (calls : list plot_call) (r : outcome pynum) :
  display_loop lib colors ii srcs S = (calls, r) ->
  exists drawn rest per_source,
    srcs = drawn ++ rest
    /\ Forall2 drawn_for drawn per_source
    /\ calls = concat per_source
    /\ match r with
       | Returns _ => rest = []
       | Raises e => rest <> [] /\ e <> ValueError
       end.
Proof.
  revert ii S calls r. induction srcs as [|s srcs IH]; intros ii S calls r.
  - simpl. intros [= <- <-]. exists [], [], []. repeat split. constructor.
  - simpl. pose proof (draw_source_whole colors ii s S) as Hs.
    destruct (draw_source lib colors ii s S) as [cs [S'|e]].
    + destruct (display_loop lib colors (Datatypes.S ii) srcs S')
        as [cs' r'] eqn:El.
      intros [= <- <-]. apply IH in El as (drawn & rest & per & -> & Hd & -> & Hr).
      exists (s :: drawn), rest, (cs :: per). repeat split; try assumption.
      now constructor.
    + intros [= <- <-]. destruct Hs as [-> He].
      exists [], (s :: srcs), []. repeat split; first [easy | constructor].
Qed.

End DisplayWhole.

(** X16. [displaySystem] draws its sources one after the other and each
    of them as a whole: when it returns, the calls are the figure and
    the axes, for every source in the order of [self.sources] its one
    drawing call (a collection of polygons for a magnet, a curve for a
    current, an arrow for a dipole, nothing for any other object), and
    the calls that set the labels and limits and show the plot. When it
    raises, the sources before the one at which it raised are drawn in
    that way, nothing is drawn of that source or of a later one, no
    limits are set and nothing is shown; and what it raises is never
    the [ValueError] of [amax] on an empty array. *)
Theorem displaySystem_draws_whole_sources :
  forall (lib : library) (srcs : list source) (calls : list plot_call)
         (r : outcome unit),
    Collection_displaySystem lib srcs = (calls, r) ->
    exists drawn rest per_source,
      srcs = drawn ++ rest
      /\ Forall2 drawn_for drawn per_source
      /\ match r with
         | Returns _ =>
             rest = []
             /\ exists S,
                  calls = [PltFigure; FigGca3d] ++ concat per_source
                          ++ closing_calls S
         | Raises e =>
             rest <> [] /\ e <> ValueError
             /\ calls = [PltFigure; FigGca3d] ++ concat per_source
         end.
Proof.
  intros lib srcs calls r. unfold Collection_displaySystem.
  destruct (display_loop lib (display_colors lib srcs) 0 srcs (NumInt 0))
    as [cs [S|e]] eqn:El;
    apply display_loop_whole in El as (drawn & rest & per & -> & Hd & -> & Hr);
    intros [= <- <-]; exists drawn, rest, per;
    (split; [reflexivity|]); (split; [assumption|]).
  - split; [assumption|]. now exists S.
  - destruct Hr. now repeat split.
Qed.

Lemma displaySystem_draws_whole_sources_witness :
  exists drawn rest per_source,
    [a_line; a_line; unit_box] = drawn ++ rest
    /\ Forall2 drawn_for drawn per_source
    /\ rest <> []
    /\ fst (Collection_displaySystem library_stub
              [a_line; a_line; unit_box])
       = [PltFigure; FigGca3d] ++ concat per_source.
Proof.
  destruct (Collection_displaySystem library_stub [a_line; a_line; unit_box])
    as [calls r] eqn:E.
  assert (Hr : exists e, r = Raises e).
  { revert E. vm_compute. intros [= <- <-]. now eexists. }
  destruct Hr as [e ->].
  destruct (displaySystem_draws_whole_sources _ _ _ _ E)
    as (drawn & rest & per & H1 & H2 & H3 & _ & H4).
  exists drawn, rest, per. now repeat split.
Defined.
